(** * semantiva: context observer and component loader

    A shallow embedding of
    - [semantiva/context_processors/context_observer.py]
      ([ContextObserver.update_context]) and
    - [semantiva/component_loader/component_loader.py]
      ([ComponentLoader], [CustomContextOperationLoader]),
    together with the properties their specification states about them.

    Python objects that are mutated through a reference (the mappings of a
    [ChainMap]) live in an explicit heap; exceptions are values of a result
    type; what [print] writes is threaded as a list of lines. *)

From Stdlib Require Import ZArith Ascii String.
From stdpp Require Import gmap strings list fin_maps pretty.

Open Scope Z_scope.

(** ** Python exceptions *)

Module Py.

(** The part of the built-in exception hierarchy the two files can meet. *)
Inductive ExcClass :=
| BaseException
| SystemExit
| KeyboardInterrupt
| Exception
| ImportError
| ModuleNotFoundError
| LookupError
| IndexError
| KeyError
| ValueError
| UnicodeError
| SyntaxError
| RuntimeError
| TypeError
| AttributeError
| OSError.

#[global] Instance ExcClass_eq_dec : EqDecision ExcClass.
Proof. solve_decision. Defined.

(** The direct base class; [BaseException] is the root. *)
Definition base (c : ExcClass) : option ExcClass :=
  match c with
  | BaseException => None
  | SystemExit | KeyboardInterrupt | Exception => Some BaseException
  | ModuleNotFoundError => Some ImportError
  | IndexError | KeyError => Some LookupError
  | UnicodeError => Some ValueError
  | ImportError | LookupError | ValueError | SyntaxError | RuntimeError
  | TypeError | AttributeError | OSError => Some Exception
  end.

(** [mro_from n c]: [c] followed by at most [n] of its ancestors. *)
Fixpoint mro_from (n : nat) (c : ExcClass) : list ExcClass :=
  c :: match n with
       | O => []
       | S n' => match base c with
                 | Some b => mro_from n' b
                 | None => []
                 end
       end.

(** No class above is deeper than three steps below the root. *)
Definition mro (c : ExcClass) : list ExcClass := mro_from 3 c.

Definition issubclass (c d : ExcClass) : bool := bool_decide (d ∈ mro c).

(** An exception instance: its class and [str(e)]. *)
Record PyExc := mkExc { exc_class : ExcClass; exc_str : string }.

#[global] Instance PyExc_eq_dec : EqDecision PyExc.
Proof. solve_decision. Defined.

(** [isinstance(e, cls)], which is what an [except cls:] clause tests. *)
Definition isinstance (e : PyExc) (cls : ExcClass) : bool :=
  issubclass (exc_class e) cls.

(** The outcome of a call: it returns a value or raises. *)
Inductive Result (A : Type) :=
| Ok (a : A)
| Raise (e : PyExc).
Arguments Ok {A} a.
Arguments Raise {A} e.

End Py.
Import Py.

(** ** [context_observer.py] *)

Module ContextObserver.

Section Contexts.

(** Context values are arbitrary Python objects. *)
Context {V : Type}.

(** *** The heap of plain mappings

    A [ChainMap] holds references to mappings it shares with whoever built
    it (a branch's chain holds its own local mapping and the parent's), so
    the mappings live in a heap and the chain holds their identities. *)

Definition loc := nat.
Definition Heap := loc → gmap string V.

(** [d[key] = value] on the mapping with identity [l]. *)
Definition heap_setitem (h : Heap) (l : loc) (key : string) (value : V) : Heap :=
  fun l' => if decide (l' = l) then <[key := value]> (h l) else h l'.

(** [collections.ChainMap]: the list [maps] of mapping identities,
    innermost first. *)
Record ChainMap := mkChainMap { maps : list loc }.

(** [ChainMap.__getitem__] without [__missing__]: the mappings are scanned
    front to back and the first one holding the key answers. *)
Fixpoint chain_get (h : Heap) (ms : list loc) (key : string) : option V :=
  match ms with
  | [] => None
  | l :: ms' => match h l !! key with
                | Some v => Some v
                | None => chain_get h ms' key
                end
  end.

(** Modelled from the spec: [ContextType] of [context_types.py], which is not
    among the sources.  The spec describes it as a flat mapping of string key
    to arbitrary value with get/set by key. *)
Record ContextType := mkContextType { context_container : gmap string V }.

Definition get_value (c : ContextType) (key : string) : option V :=
  context_container c !! key.

Definition set_value (c : ContextType) (key : string) (value : V) : ContextType :=
  mkContextType (<[key := value]> (context_container c)).

(** Modelled from the spec: [ContextCollectionType] of [context_types.py],
    which is not among the sources.  The spec describes an ordered sequence
    of per-item [ContextType] slices of fixed length, plus a collection-wide
    write that is visible to every item; [update_context]'s docstring calls
    that write global.  The collection therefore carries one collection-wide
    mapping next to its slices, and an item sees its own slice first and the
    collection-wide mapping behind it. *)
Record ContextCollectionType := mkContextCollectionType {
  global_context : ContextType;
  context_list : list ContextType
}.

(** The collection-wide write [set_value(key, value)] of a collection. *)
Definition collection_set_value (c : ContextCollectionType)
    (key : string) (value : V) : ContextCollectionType :=
  mkContextCollectionType (set_value (global_context c) key value)
                          (context_list c).

(** [set_item_value(index, key, value)]: the write to the slice at the
    0-based position [index].  The spec names no slice for a position
    outside [0 .. N-1]; the model reports such a position as an
    [IndexError] and changes nothing. *)
Definition set_item_value (c : ContextCollectionType) (index : Z)
    (key : string) (value : V) : Result ContextCollectionType :=
  if decide (0 ≤ index) then
    match context_list c !! Z.to_nat index with
    | Some slice =>
        Ok (mkContextCollectionType
              (global_context c)
              (<[Z.to_nat index := set_value slice key value]> (context_list c)))
    | None => Raise (mkExc IndexError "list index out of range")
    end
  else Raise (mkExc IndexError "list index out of range").

(** What item [i] of a collection reads under [key]. *)
Definition get_item_value (c : ContextCollectionType) (i : nat)
    (key : string) : option V :=
  match context_list c !! i with
  | Some slice =>
      match get_value slice key with
      | Some v => Some v
      | None => get_value (global_context c) key
      end
  | None => None
  end.

(** The three shapes [update_context] tells apart with [isinstance]. *)
Inductive AnyContext :=
| OfCollection (c : ContextCollectionType)
| OfChainMap (c : ChainMap)
| OfContextType (c : ContextType).

(** [ContextObserver.update_context(context, key, value, index=None)].
    The Python method returns nothing and mutates its argument; here it
    returns the heap and the context as they are afterwards. *)
Definition update_context (h : Heap) (context : AnyContext) (key : string)
    (value : V) (index : option Z) : Result (Heap * AnyContext) :=
  match context with
  | OfCollection c =>
      match index with
      | None => Ok (h, OfCollection (collection_set_value c key value))
      | Some i =>
          match set_item_value c i key value with
          | Ok c' => Ok (h, OfCollection c')
          | Raise e => Raise e
          end
      end
  | OfChainMap c =>
      (* context.maps[0][key] = value *)
      match maps c with
      | l0 :: _ => Ok (heap_setitem h l0 key value, OfChainMap c)
      | [] => Raise (mkExc IndexError "list index out of range")
      end
  | OfContextType c => Ok (h, OfContextType (set_value c key value))
  end.

End Contexts.

Arguments Heap : clear implicits.
Arguments ContextType : clear implicits.
Arguments ContextCollectionType : clear implicits.
Arguments AnyContext : clear implicits.

End ContextObserver.

(** ** Regular expressions

    The fragment of Python's [re] that the two descriptor patterns use, with
    [re.match]'s semantics: the pattern is anchored at the start of the
    string only, alternatives are tried by backtracking, a lazy star takes
    the fewest characters that let the rest of the pattern match. *)

Module Re.

Definition newline : ascii := ascii_of_nat 10.

Inductive atom :=
| Char (c : ascii)   (* a literal character *)
| Dot.               (* [.]: any character but a newline *)

Inductive item :=
| Atom (a : atom)
| LazyGroup (a : atom)   (* [(a*?)]: a capturing group around a lazy star *)
| Dollar.                (* [$]: the end, or just before a final newline *)

Definition pattern := list item.

Definition atom_matches (a : atom) (c : ascii) : bool :=
  match a with
  | Char c' => bool_decide (c = c')
  | Dot => negb (bool_decide (c = newline))
  end.

(** Where [$] matches (without [re.MULTILINE]). *)
Definition at_end (s : string) : bool :=
  match s with
  | EmptyString => true
  | String c EmptyString => bool_decide (c = newline)
  | _ => false
  end.

(** [lazy_star a rest s]: a lazy star over [a] inside a capturing group,
    followed by the rest of the pattern.  The group first takes nothing;
    each time [rest] fails on what is left, it takes one more character that
    [a] matches.  The group's text is put in front of the groups of
    [rest]. *)
Fixpoint lazy_star (a : atom) (rest : string → option (list string))
    (s : string) : option (list string) :=
  match rest s with
  | Some gs => Some (EmptyString :: gs)
  | None =>
      match s with
      | String c s' =>
          if atom_matches a c then
            match lazy_star a rest s' with
            | Some (g :: gs) => Some (String c g :: gs)
            | _ => None
            end
          else None
      | EmptyString => None
      end
  end.

(** [match_here p s]: the groups captured when [p] matches a prefix of [s],
    as backtracking finds them. *)
Fixpoint match_here (p : pattern) (s : string) : option (list string) :=
  match p with
  | [] => Some []
  | Atom a :: p' =>
      match s with
      | String c s' => if atom_matches a c then match_here p' s' else None
      | EmptyString => None
      end
  | Dollar :: p' => if at_end s then match_here p' s else None
  | LazyGroup a :: p' => lazy_star a (match_here p') s
  end.

(** The literal characters of a string, as pattern items. *)
Fixpoint literal (s : string) : pattern :=
  match s with
  | EmptyString => []
  | String c s' => Atom (Char c) :: literal s'
  end.

(** [re.match(p, s)]: [match.groups()] when there is a match. *)
Definition re_match (p : pattern) (s : string) : option (list string) :=
  match_here p s.

End Re.

(** ** [component_loader.py] *)

Module ComponentLoader.

(** What [pathlib] contributes: the [Path] of a string and a path's [stem].
    Two strings may denote one path. *)
Class Pathlib (Path : Type) := {
  PathOf : string → Path;
  stem : Path → string
}.

(** The objects [get_class] can hand out.  A class found in a module or a
    file is known by its name; the two factories of
    [semantiva.context_operations.context_operations] build classes that
    are bound to the keys they were given. *)
Inductive PyClass :=
| LoadedClass (qualname : string)
| RenameOperation (original_key destination_key : string)
| DeleteOperation (key : string).

#[global] Instance PyClass_eq_dec : EqDecision PyClass.
Proof. solve_decision. Defined.

(** Modelled from the spec: the factory [rename_context_key] of
    [context_operations.py], which is not among the sources.  The spec
    describes it as producing a rename-key operation type bound to the two
    keys. *)
Definition rename_context_key (original_key destination_key : string) : PyClass :=
  RenameOperation original_key destination_key.

(** Modelled from the spec: the factory [delete_context_key] of
    [context_operations.py], which is not among the sources.  The spec
    describes it as producing a delete-key operation type bound to the
    key. *)
Definition delete_context_key (key : string) : PyClass :=
  DeleteOperation key.

(** Modelled from the spec: what a synthesized operation does to the active
    context.  The spec says that a rename moves the value from the old key
    to the new key and that a delete removes the key; it states the result
    only for a context that holds the key, so the model gives no result
    otherwise, and none for a class that is not a synthesized operation. *)
Definition operate_context {V : Type} (op : PyClass)
    (context : ContextObserver.ContextType V)
    : option (ContextObserver.ContextType V) :=
  let d := ContextObserver.context_container context in
  match op with
  | RenameOperation original_key destination_key =>
      match d !! original_key with
      | Some v =>
          Some (ContextObserver.mkContextType
                  (<[destination_key := v]> (delete original_key d)))
      | None => None
      end
  | DeleteOperation key =>
      match d !! key with
      | Some _ => Some (ContextObserver.mkContextType (delete key d))
      | None => None
      end
  | LoadedClass _ => None
  end.

(** A module object, as far as [getattr(module, name, None)] can tell:
    [None] when the attribute is missing (or is [None] itself).  The lookup
    is taken to return; a module whose own [__getattr__] raises is outside
    what is modelled. *)
Record PyModule := mkModule { getattr_or_None : string → option PyClass }.

(** [module_spec.loader]: [exec_module] fills the module or raises. *)
Record Loader := mkLoader { exec_module : Result PyModule }.

(** A module spec; [loader] may be missing. *)
Record ModuleSpec := mkModuleSpec { loader : option Loader }.

(** The order in which a [for] loop visits a set: some enumeration of its
    elements, about which nothing else is known. *)
Record SetIteration (A : Type) `{Countable A} := mkSetIteration {
  iterate : gset A → list A;
  iterate_perm : ∀ s, iterate s ≡ₚ elements s
}.
Arguments iterate {A _ _} _ _.
Arguments iterate_perm {A _ _} _ _.

(** Iteration in the order of [elements]. *)
Definition elements_order (A : Type) `{Countable A} : SetIteration A :=
  mkSetIteration A _ _ elements (fun s => reflexivity (elements s)).

Section Loader.

Context {Path : Type} `{Path_countable : Countable Path} `{!Pathlib Path}.

(** What the interpreter and the file system answer. *)
Record World := mkWorld {
  import_module : string → Result PyModule;
  is_file : Path → bool;
  spec_from_file_location : string → Path → option ModuleSpec;
  modules_order : SetIteration string;
  paths_order : SetIteration Path
}.

(** The class attributes of [ComponentLoader]. *)
Record Registry := mkRegistry {
  _registered_paths : gset Path;
  _registered_modules : gset string
}.

(** *** Computations that print and may raise *)

(** A computation takes the lines printed so far and gives its outcome and
    the lines printed by then; what was printed stays printed when it
    raises.  The lines are those the loader itself prints; what imported or
    executed code writes on its own is not traced. *)
Definition M (A : Type) : Type := list string → Result A * list string.

Definition ret {A} (a : A) : M A := fun out => (Ok a, out).

Definition raise {A} (e : PyExc) : M A := fun out => (Raise e, out).

Definition bind {A B} (m : M A) (k : A → M B) : M B :=
  fun out =>
    match m out with
    | (Ok a, out') => k a out'
    | (Raise e, out') => (Raise e, out')
    end.

Definition lift {A} (r : Result A) : M A := fun out => (r, out).

Definition print (line : string) : M unit := fun out => (Ok tt, out ++ [line]).

(** [try: body  except cls as e: handler e]. *)
Definition try_except {A} (body : M A) (cls : ExcClass)
    (handler : PyExc → M A) : M A :=
  fun out =>
    match body out with
    | (Ok a, out') => (Ok a, out')
    | (Raise e, out') =>
        if isinstance e cls then handler e out' else (Raise e, out')
    end.

#[local] Instance M_ret : MRet M := @ret.
#[local] Instance M_bind : MBind M := fun A B k m => bind m k.

(** A [for] loop that returns the first result that is not [None]. *)
Fixpoint first_not_None {A} (f : A → M (option PyClass)) (xs : list A)
    : M (option PyClass) :=
  match xs with
  | [] => ret None
  | x :: xs' =>
      class_type ← f x;
      match class_type with
      | Some c => ret (Some c)
      | None => first_not_None f xs'
      end
  end.

(** *** Registration *)

Definition initialize_default_modules (reg : Registry) : Registry :=
  mkRegistry
    (_registered_paths reg)
    ({["semantiva.context_operations.context_operations"]} ∪
     ({["semantiva.specializations.image.image_probes"]} ∪
      ({["semantiva.specializations.image.image_algorithms"]} ∪
       _registered_modules reg))).

(** An argument of type [str | List[str]]. *)
Inductive StrOrList :=
| OneStr (s : string)
| StrList (l : list string).

(** [if isinstance(x, str): x = [x]]. *)
Definition as_list (x : StrOrList) : list string :=
  match x with
  | OneStr s => [s]
  | StrList l => l
  end.

Definition register_paths (paths : StrOrList) (reg : Registry) : Registry :=
  foldl (fun r path =>
           mkRegistry ({[PathOf path]} ∪ _registered_paths r)
                      (_registered_modules r))
        reg (as_list paths).

Definition register_modules (modules : StrOrList) (reg : Registry) : Registry :=
  foldl (fun r module =>
           mkRegistry (_registered_paths r)
                      ({[module]} ∪ _registered_modules r))
        reg (as_list modules).

Definition get_registered_paths (reg : Registry) : gset Path :=
  _registered_paths reg.

Definition get_registered_modules (reg : Registry) : gset string :=
  _registered_modules reg.

(** *** Resolution *)

Variable w : World.

(** The [try] covers the import and the [getattr]; only
    [ModuleNotFoundError] is handled. *)
Definition _get_class_from_module (module_name class_name : string)
    : M (option PyClass) :=
  try_except
    (module ← lift (import_module w module_name);
     ret (getattr_or_None module class_name))
    ModuleNotFoundError
    (fun _ => ret None).

(** [f"Error loading module {module_name}: {e}"] *)
Definition load_error_line (module_name : string) (e : PyExc) : string :=
  "Error loading module " +:+ module_name +:+ ": " +:+ exc_str e.

(** Of the calls below only [exec_module], the one inside the [try], has an
    outcome that may be an exception.  [is_file],
    [spec_from_file_location], [module_from_spec] (which builds the module
    that [exec_module] fills) and the final [getattr] are outside the [try]
    in the source; the embedding takes them to return, so an exception of
    theirs is outside what is modelled. *)
Definition _get_class_from_file (file_path : Path) (class_name : string)
    : M (option PyClass) :=
  if negb (is_file w file_path) then ret None  (* not a file: skip it *)
  else
    let module_name := stem file_path in
    match spec_from_file_location w module_name file_path with
    | None => ret None
    | Some module_spec =>
        match loader module_spec with
        | None => ret None
        | Some ld =>
            loaded ←
              try_except
                (module ← lift (exec_module ld); ret (Some module))
                Exception
                (fun e =>
                   _ ← print (load_error_line module_name e);
                   ret None);
            match loaded with
            | None => ret None
            | Some module => ret (getattr_or_None module class_name)
            end
        end
    end.

Definition not_found_message (class_name : string) : string :=
  "Class '" +:+ class_name +:+
  "' not found in any of the registered modules and paths.".

Definition get_class (reg : Registry) (class_name : string) : M PyClass :=
  from_modules ←
    first_not_None (fun module_name =>
                      _get_class_from_module module_name class_name)
                   (iterate (modules_order w) (_registered_modules reg));
  match from_modules with
  | Some class_type => ret class_type
  | None =>
      from_paths ←
        first_not_None (fun path => _get_class_from_file path class_name)
                       (iterate (paths_order w) (_registered_paths reg));
      match from_paths with
      | Some class_type => ret class_type
      | None => raise (mkExc ValueError (not_found_message class_name))
      end
  end.

(** *** [CustomContextOperationLoader] *)

(** [r"rename:(.*?):(.*?)$"] *)
Definition rename_pattern : Re.pattern :=
  Re.literal "rename:" ++
  [Re.LazyGroup Re.Dot; Re.Atom (Re.Char ":"%char); Re.LazyGroup Re.Dot;
   Re.Dollar].

(** [r"delete:(.*?)$"] *)
Definition delete_pattern : Re.pattern :=
  Re.literal "delete:" ++ [Re.LazyGroup Re.Dot; Re.Dollar].

(** [str.startswith] *)
Definition startswith (s pre : string) : bool := String.prefix pre s.

Definition unknown_operation_message (class_name : string) : string :=
  "Unknown context operation: " +:+ class_name.

(** The part of [get_context_operation] after the registry gave up. *)
Definition special_operation (class_name : string) : M PyClass :=
  let unknown :=
    raise (mkExc ValueError (unknown_operation_message class_name)) in
  if startswith class_name "rename:" then
    match Re.re_match rename_pattern class_name with
    | Some [old_key; new_key] => ret (rename_context_key old_key new_key)
    | _ => unknown
    end
  else if startswith class_name "delete:" then
    match Re.re_match delete_pattern class_name with
    | Some [key] => ret (delete_context_key key)
    | _ => unknown
    end
  else unknown.

(** [try: return ComponentLoader.get_class(class_name)
     except ValueError: pass], then the special operations. *)
Definition get_context_operation (reg : Registry) (class_name : string)
    : M PyClass :=
  standard ←
    try_except
      (class_type ← get_class reg class_name; ret (Some class_type))
      ValueError
      (fun _ => ret None);
  match standard with
  | Some class_type => ret class_type
  | None => special_operation class_name
  end.

End Loader.

Arguments World Path {_ _}.
Arguments Registry Path {_ _}.

End ComponentLoader.

(** ** Vocabulary of the statements *)

(** [sub in s]: the string [sub] occurs verbatim inside [s]. *)
Definition contains (s sub : string) : Prop :=
  ∃ pre post, s = pre +:+ sub +:+ post.

(** [c in s] for a character [c]. *)
Fixpoint mentions (c : ascii) (s : string) : bool :=
  match s with
  | EmptyString => false
  | String c' s' => bool_decide (c' = c) || mentions c s'
  end.

(** ** A sample world

    Paths are their strings and the stem of a path is taken to be the whole
    string.  One namespace and one file define a class [Blur]; one
    namespace raises a [ValueError] while it is imported; one file raises a
    [RuntimeError] while it is executed and one calls [sys.exit]; every
    other namespace is missing and every other path is no file. *)

Module Sample.

Import ComponentLoader.

#[global] Instance string_pathlib : Pathlib string :=
  {| PathOf := fun s => s; stem := fun p => p |}.

Definition defines (name : string) (c : PyClass) : PyModule :=
  mkModule (fun attr => if bool_decide (attr = name) then Some c else None).

Definition file_with (outcome : Result PyModule) : option ModuleSpec :=
  Some (mkModuleSpec (Some (mkLoader outcome))).

Definition world : World string :=
  mkWorld
    (fun module_name =>
       if bool_decide (module_name = "pkg.ops")
       then Ok (defines "Blur" (LoadedClass "pkg.ops.Blur"))
       else if bool_decide (module_name = "pkg.broken")
       then Raise (mkExc ValueError "invalid literal for int()")
       else Raise (mkExc ModuleNotFoundError "No module named that"))
    (fun path =>
       bool_decide (path ∈ ["plugins/blur.py"; "plugins/bad.py";
                            "plugins/exit.py"]))
    (fun _ path =>
       if bool_decide (path = "plugins/blur.py")
       then file_with (Ok (defines "Blur" (LoadedClass "blur.Blur")))
       else if bool_decide (path = "plugins/bad.py")
       then file_with (Raise (mkExc RuntimeError "bad plugin"))
       else if bool_decide (path = "plugins/exit.py")
       then file_with (Raise (mkExc SystemExit "1"))
       else None)
    (elements_order string)
    (elements_order string).

Definition empty_registry : Registry string := mkRegistry ∅ ∅.

End Sample.

(** ** [logger.py] *)

Module Logger.

(** *** What [logging] contributes *)

(** The level constants of [logging]. *)
Definition CRITICAL : Z := 50.
Definition ERROR : Z := 40.
Definition WARNING : Z := 30.
Definition INFO : Z := 20.
Definition DEBUG : Z := 10.
Definition NOTSET : Z := 0.

(** [logging.getLevelName] for a number, with the level names [logging]
    starts with. *)
Definition getLevelName (level : Z) : string :=
  if bool_decide (level = CRITICAL) then "CRITICAL"
  else if bool_decide (level = ERROR) then "ERROR"
  else if bool_decide (level = WARNING) then "WARNING"
  else if bool_decide (level = INFO) then "INFO"
  else if bool_decide (level = DEBUG) then "DEBUG"
  else if bool_decide (level = NOTSET) then "NOTSET"
  else "Level " +:+ pretty level.

Inductive Stream := Stdout | Stderr.

Inductive HandlerKind :=
| StreamHandler (stream : Stream)
| FileHandler (filename : string).

(** A handler object: handlers are compared by identity, so each carries
    the identity it got when it was created. *)
Record Handler := mkHandler {
  handler_id : nat;
  handler_kind : HandlerKind;
  handler_formatter : option string
}.

(** An argument of a logging call. *)
Inductive Arg :=
| ArgStr (s : string)
| ArgList (l : list string)
| ArgExc (e : PyExc).

(** A call of [error] or [info] on a [logging.Logger]: its level, its
    message and its arguments.  Whether the record reaches a handler is
    decided inside [logging] and is not modelled. *)
Record LogCall := mkLogCall {
  call_level : Z;
  call_msg : string;
  call_args : list Arg
}.

(** A [logging.Logger] object. *)
Record PyLogger := mkPyLogger {
  level : Z;
  handlers : list Handler;
  calls : list LogCall
}.

(** The loggers of the process, by identity, and the identity the next
    handler will get.  [logging.getLogger()] is the root logger. *)
Record Logging := mkLogging {
  loggers : nat → PyLogger;
  next_handler : nat
}.

Definition root : nat := 0%nat.

Definition on_logger (st : Logging) (l : nat) (f : PyLogger → PyLogger)
    : Logging :=
  mkLogging (fun l' => if decide (l' = l) then f (loggers st l)
                       else loggers st l')
            (next_handler st).

(** [Logger.setLevel] *)
Definition setLevel (lvl : Z) (lg : PyLogger) : PyLogger :=
  mkPyLogger lvl (handlers lg) (calls lg).

(** [Logger.addHandler]: a handler that is there already is not added
    again. *)
Definition addHandler (h : Handler) (lg : PyLogger) : PyLogger :=
  if bool_decide (handler_id h ∈ handler_id <$> handlers lg) then lg
  else mkPyLogger (level lg) (handlers lg ++ [h]) (calls lg).

Definition log (lvl : Z) (msg : string) (args : list Arg) (lg : PyLogger)
    : PyLogger :=
  mkPyLogger (level lg) (handlers lg) (calls lg ++ [mkLogCall lvl msg args]).

(** *** The class [Logger] *)

(** The class attribute [verbosity_map], a dict in the order it is
    written. *)
Definition verbosity_map : list (string * Z) :=
  [("DEBUG", DEBUG); ("INFO", INFO); ("WARNING", WARNING);
   ("ERROR", ERROR); ("CRITICAL", CRITICAL)].

(** [d.get(key)] *)
Fixpoint dict_get (d : list (string * Z)) (key : string) : option Z :=
  match d with
  | [] => None
  | (k, v) :: d' => if bool_decide (k = key) then Some v else dict_get d' key
  end.

(** [list(d.keys())] *)
Definition keys (d : list (string * Z)) : list string := fst <$> d.

(** The class attribute [formatter]. *)
Definition formatter : string :=
  "%(asctime)s - %(levelname)-8s - %(message)s (%(module)s)".

(** A [Logger] holds the [logging.Logger] it wraps. *)
Record Logger := mkLogger { logger : nat }.

Definition __init__ (given : option nat) : Logger :=
  match given with
  | None => mkLogger root
  | Some l => mkLogger l
  end.

Definition set_verbose_level (self : Logger) (verbosity_level : string)
    (st : Logging) : Logging :=
  match dict_get verbosity_map verbosity_level with
  | None =>
      on_logger st (logger self)
        (log ERROR
           "The verbosity level '%s' is incorrect. Valid levels are: %s."
           [ArgStr verbosity_level; ArgList (keys verbosity_map)])
  | Some new_level =>
      let previous_level := level (loggers st (logger self)) in
      let st1 := on_logger st (logger self) (setLevel new_level) in
      on_logger st1 (logger self)
        (log INFO "Logger verbosity level changed from %s to %s."
           [ArgStr (getLevelName previous_level); ArgStr verbosity_level])
  end.

Definition set_console_output (self : Logger) (st : Logging) : Logging :=
  let console_handler :=
    mkHandler (next_handler st) (StreamHandler Stdout) (Some formatter) in
  let st1 := mkLogging (loggers st) (S (next_handler st)) in
  on_logger st1 (logger self) (addHandler console_handler).

(** [logging.FileHandler(file_path)] opens the file and so may raise;
    [open_file] says what opening a path does. *)
Definition set_file_output (open_file : string → Result unit)
    (self : Logger) (file_path : string) (st : Logging)
    : Result unit * Logging :=
  match open_file file_path with
  | Ok _ =>
      let file_handler :=
        mkHandler (next_handler st) (FileHandler file_path) (Some formatter) in
      let st1 := mkLogging (loggers st) (S (next_handler st)) in
      (Ok tt, on_logger st1 (logger self) (addHandler file_handler))
  | Raise e =>
      if isinstance e Exception then
        (Ok tt, on_logger st (logger self)
                  (log ERROR "Failed to set file output: %s" [ArgExc e]))
      else (Raise e, st)
  end.

(** *** Vocabulary *)

(** Every handler in use was created before now. *)
Definition handlers_known (st : Logging) : Prop :=
  ∀ l h, h ∈ handlers (loggers st l) → (handler_id h < next_handler st)%nat.

(** Several [set_verbose_level] calls in a row. *)
Definition set_verbose_levels (self : Logger) (names : list string)
    (st : Logging) : Logging :=
  foldl (fun st' name => set_verbose_level self name st') st names.

End Logger.

(** ** Further vocabulary *)

(** The string that holds one newline. *)
Definition line_feed : string := String Re.newline "".

(** A set visited in the reverse of the order of [elements]. *)
Definition reversed_order (A : Type) `{Countable A}
    : ComponentLoader.SetIteration A :=
  ComponentLoader.mkSetIteration A _ _
    (fun s => reverse (elements s))
    (fun s => reverse_Permutation (elements s)).

(** A world that differs only in the order in which the registered
    namespaces are visited. *)
Definition with_modules_order {Path : Type} `{Countable Path}
    (w : ComponentLoader.World Path)
    (order : ComponentLoader.SetIteration string) : ComponentLoader.World Path :=
  ComponentLoader.mkWorld
    (ComponentLoader.import_module w)
    (ComponentLoader.is_file w)
    (ComponentLoader.spec_from_file_location w)
    order
    (ComponentLoader.paths_order w).

(** The sample world with a second namespace that defines [Blur]. *)
Definition two_offers_world : ComponentLoader.World string :=
  ComponentLoader.mkWorld
    (fun module_name =>
       if bool_decide (module_name = "pkg.alt")
       then Ok (Sample.defines "Blur" (ComponentLoader.LoadedClass "pkg.alt.Blur"))
       else ComponentLoader.import_module Sample.world module_name)
    (ComponentLoader.is_file Sample.world)
    (ComponentLoader.spec_from_file_location Sample.world)
    (ComponentLoader.elements_order string)
    (ComponentLoader.elements_order string).

(** A process whose loggers are at [WARNING] and have no handlers. *)
Definition fresh_logging : Logger.Logging :=
  Logger.mkLogging (fun _ => Logger.mkPyLogger Logger.WARNING [] []) 0.

(** * Properties of [ContextObserver.update_context] *)

Section ContextObserverProperties.

Import ContextObserver.

Context {V : Type}.
Implicit Types (h : Heap V) (key : string) (value : V) (index : option Z).

Lemma heap_setitem_same h l key value :
  heap_setitem h l key value l = <[key := value]> (h l).
Proof. unfold heap_setitem. by rewrite decide_True. Qed.

Lemma heap_setitem_other h l l' key value :
  l' ≠ l → heap_setitem h l key value l' = h l'.
Proof. intros Hne. unfold heap_setitem. by rewrite decide_False. Qed.

(** A chain answers with its first mapping whenever that one holds the key. *)
Lemma chain_get_first h l ms key v :
  h l !! key = Some v → chain_get h (l :: ms) key = Some v.
Proof. intros Hl. simpl. by rewrite Hl. Qed.

(** C1 (as amended).  On a chain whose mappings are [l0 :: rest],
    [update_context] succeeds whatever [index] is, keeps the chain as it is,
    sets [key] to [value] in the mapping [l0] and changes no mapping object
    other than [l0]: every outer layer that is not the object [l0] itself,
    and every mapping outside the chain, is as before, also when the key
    resolved in an outer layer.  A read of [key] through the chain then
    returns [value]. *)
Theorem update_context_chainmap_writes_first_mapping
    h (l0 : loc) (rest : list loc) key value index :
  let chain := OfChainMap (mkChainMap (l0 :: rest)) in
  let h' := heap_setitem h l0 key value in
  update_context h chain key value index = Ok (h', chain)
  ∧ h' l0 = <[key := value]> (h l0)
  ∧ (∀ l, l ≠ l0 → h' l = h l)
  ∧ (∀ j l, rest !! j = Some l → l ≠ l0 → h' l = h l)
  ∧ chain_get h' (l0 :: rest) key = Some value.
Proof.
  simpl. repeat split.
  - apply heap_setitem_same.
  - intros l Hne. by apply heap_setitem_other.
  - intros j l _ Hne. by apply heap_setitem_other.
  - rewrite heap_setitem_same, lookup_insert_eq. done.
Qed.

(** On a chain without mappings [maps[0]] raises. *)
Lemma update_context_chainmap_empty h key value index :
  update_context h (OfChainMap (mkChainMap [])) key value index
  = Raise (mkExc IndexError "list index out of range").
Proof. reflexivity. Qed.

(** C2.  On a collection of N slices, [update_context] with an index [i]
    in [0 .. N-1] succeeds, replaces the slice at position [i] by that slice
    with [key] set to [value], and leaves every other slice, the number of
    slices, the collection-wide mapping and the heap unchanged.  Without an
    index it succeeds, leaves the slices as they are and writes the
    collection-wide mapping, after which every one of the N items reads
    [key]. *)
Theorem update_context_collection_scoping
    h (c : ContextCollectionType V) key value :
  (∀ i : Z, 0 ≤ i < Z.of_nat (length (context_list c)) →
     ∃ c' slice,
       update_context h (OfCollection c) key value (Some i)
         = Ok (h, OfCollection c')
       ∧ context_list c !! Z.to_nat i = Some slice
       ∧ context_list c' !! Z.to_nat i = Some (set_value slice key value)
       ∧ (∀ j, j ≠ Z.to_nat i → context_list c' !! j = context_list c !! j)
       ∧ length (context_list c') = length (context_list c)
       ∧ global_context c' = global_context c)
  ∧ (∃ c',
       update_context h (OfCollection c) key value None
         = Ok (h, OfCollection c')
       ∧ context_list c' = context_list c
       ∧ get_value (global_context c') key = Some value
       ∧ ∀ j, (j < length (context_list c))%nat →
           is_Some (get_item_value c' j key)).
Proof.
  split.
  - intros i [Hlo Hhi].
    assert (Hlt : (Z.to_nat i < length (context_list c))%nat) by lia.
    destruct (lookup_lt_is_Some_2 _ _ Hlt) as [slice Hslice].
    exists (mkContextCollectionType (global_context c)
              (<[Z.to_nat i := set_value slice key value]> (context_list c))),
           slice.
    simpl. unfold set_item_value.
    rewrite decide_True by done. rewrite Hslice.
    repeat split; try done.
    + by apply list_lookup_insert_eq.
    + intros j Hne. by apply list_lookup_insert_ne.
    + apply length_insert.
  - exists (collection_set_value c key value). simpl.
    repeat split.
    + unfold get_value. simpl. apply lookup_insert_eq.
    + intros j Hj. unfold get_item_value. simpl.
      destruct (lookup_lt_is_Some_2 _ _ Hj) as [slice ->].
      destruct (get_value slice key); [by eexists |].
      unfold get_value. simpl. rewrite lookup_insert_eq. by eexists.
Qed.

(** An index that names no slice is reported and nothing is written. *)
Lemma update_context_collection_out_of_range
    h (c : ContextCollectionType V) key value (i : Z) :
  i < 0 ∨ Z.of_nat (length (context_list c)) ≤ i →
  update_context h (OfCollection c) key value (Some i)
  = Raise (mkExc IndexError "list index out of range").
Proof.
  intros Hout. simpl. unfold set_item_value.
  destruct (decide (0 ≤ i)) as [Hnn|]; [|done].
  rewrite (lookup_ge_None_2 (context_list c) (Z.to_nat i)) by lia. done.
Qed.

(** C8.  On a flat context [update_context] succeeds, sets [key] to [value]
    in the context's mapping, leaves every other key and the heap as they
    were, and gives the same result for every [index], given or not. *)
Theorem update_context_flat_ignores_index
    h (c : ContextType V) key value index :
  update_context h (OfContextType c) key value index
    = Ok (h, OfContextType (set_value c key value))
  ∧ get_value (set_value c key value) key = Some value
  ∧ (∀ key', key' ≠ key →
       get_value (set_value c key value) key' = get_value c key')
  ∧ (∀ index',
       update_context h (OfContextType c) key value index'
       = update_context h (OfContextType c) key value index).
Proof.
  repeat split.
  - unfold get_value. simpl. apply lookup_insert_eq.
  - intros key' Hne. unfold get_value. simpl. by apply lookup_insert_ne.
Qed.

End ContextObserverProperties.

(** C1 (as stated) fails when the innermost mapping object also sits at an
    outer position of the chain, as in [d = {}; ChainMap(d, d)]: the write to
    [maps[0]] is then a write to the outer layer [maps[1]] as well, which
    did not hold the key before and holds it afterwards. *)
Lemma update_context_chainmap_shared_layer_changes :
  let h : ContextObserver.Heap Z := fun _ => ∅ in
  let chain := ContextObserver.mkChainMap [0%nat; 0%nat] in
  ∃ h',
    ContextObserver.update_context h (ContextObserver.OfChainMap chain)
      "k" 2 None
    = Ok (h', ContextObserver.OfChainMap chain)
    ∧ ContextObserver.maps chain !! 1%nat = Some 0%nat
    ∧ h 0%nat !! "k" = None
    ∧ h' 0%nat !! "k" = Some 2.
Proof.
  intros h chain.
  exists (ContextObserver.heap_setitem h 0%nat "k" 2).
  repeat split.
Qed.

(** The write to slice 1 of three slices, and the collection-wide write. *)
Lemma update_context_collection_scoping_witness :
  let slice0 := ContextObserver.mkContextType ({["k" := 1]} : gmap string Z) in
  let empty := ContextObserver.mkContextType (∅ : gmap string Z) in
  let c := ContextObserver.mkContextCollectionType empty [slice0; empty; slice0] in
  ∃ c' slice,
    ContextObserver.update_context (fun _ => ∅) (ContextObserver.OfCollection c)
      "k" 9 (Some 1)
      = Ok ((fun _ => ∅), ContextObserver.OfCollection c')
    ∧ ContextObserver.context_list c !! Z.to_nat 1 = Some slice
    ∧ ContextObserver.context_list c' !! Z.to_nat 1
      = Some (ContextObserver.set_value slice "k" 9)
    ∧ (∀ j, j ≠ Z.to_nat 1 →
         ContextObserver.context_list c' !! j
         = ContextObserver.context_list c !! j)
    ∧ length (ContextObserver.context_list c')
      = length (ContextObserver.context_list c)
    ∧ ContextObserver.global_context c' = ContextObserver.global_context c.
Proof.
  intros slice0 empty c.
  apply (proj1 (update_context_collection_scoping (fun _ => ∅) c "k" 9) 1).
  simpl. lia.
Defined.

(** * Properties of the descriptor patterns *)

Section PatternProperties.

Import ComponentLoader.

Lemma append_cons (a : ascii) (s t : string) :
  String a s +:+ t = String a (s +:+ t).
Proof. reflexivity. Qed.

Lemma append_empty_l (t : string) : "" +:+ t = t.
Proof. reflexivity. Qed.

Lemma append_empty_r (s : string) : s +:+ "" = s.
Proof.
  induction s as [|a s IH]; [done|]. by rewrite append_cons, IH.
Qed.

Lemma mentions_cons (c a : ascii) (s : string) :
  mentions c (String a s) = false ↔ a ≠ c ∧ mentions c s = false.
Proof.
  simpl. rewrite orb_false_iff, bool_decide_eq_false. done.
Qed.

(** A literal prefix of the pattern consumes that prefix of the string. *)
Lemma match_here_literal (pre : string) (p : Re.pattern) (s : string) :
  Re.match_here (Re.literal pre ++ p) (pre +:+ s) = Re.match_here p s.
Proof.
  induction pre as [|a pre IH]; [done|].
  rewrite append_cons. simpl. by rewrite bool_decide_true.
Qed.

(** A pattern that starts with a literal only matches strings that start
    with it. *)
Lemma match_here_literal_prefix (pre : string) (p : Re.pattern) (s : string) :
  is_Some (Re.match_here (Re.literal pre ++ p) s) →
  String.prefix pre s = true.
Proof.
  revert s. induction pre as [|a pre IH]; intros s.
  - by destruct s.
  - destruct s as [|c s]; simpl; [by intros ?%is_Some_None|].
    case_bool_decide as Hc; [|by intros ?%is_Some_None].
    subst c. intros Hm. destruct (ascii_dec a a); [by apply IH | done].
Qed.

(** [(.*?)$] on text without a newline: the group takes all of it. *)
Lemma lazy_dot_to_end (t : string) :
  mentions Re.newline t = false →
  Re.match_here [Re.LazyGroup Re.Dot; Re.Dollar] t = Some [t].
Proof.
  induction t as [|c t IH]; [done|].
  intros [Hc Ht]%mentions_cons. specialize (IH Ht).
  simpl in *.
  replace (match t with
           | "" => bool_decide (c = Re.newline)
           | String _ _ => false
           end) with false
    by (destruct t; [by rewrite bool_decide_false | done]).
  rewrite bool_decide_false by done. simpl. by rewrite IH.
Qed.

(** [(.*?):] followed by a pattern that matches what comes after the first
    colon: the group takes the text before that colon. *)
Lemma lazy_dot_to_first_colon (pre s : string) (p : Re.pattern) gs :
  mentions ":" pre = false →
  mentions Re.newline pre = false →
  Re.match_here p s = Some gs →
  Re.match_here (Re.LazyGroup Re.Dot :: Re.Atom (Re.Char ":") :: p)
    (pre +:+ String ":" s) = Some (pre :: gs).
Proof.
  intros Hcolon Hnl Hp.
  induction pre as [|c pre IH].
  - simpl. by rewrite Hp.
  - apply mentions_cons in Hcolon as [Hc Hcolon].
    apply mentions_cons in Hnl as [Hn Hnl].
    specialize (IH Hcolon Hnl).
    rewrite append_cons. simpl in *.
    rewrite (bool_decide_false (c = ":"%char)) by done.
    rewrite (bool_decide_false (c = Re.newline)) by done.
    simpl. by rewrite IH.
Qed.

(** [(.*?):] finds no match in text without a colon. *)
Lemma lazy_dot_no_colon (t : string) (p : Re.pattern) :
  mentions ":" t = false →
  Re.match_here (Re.LazyGroup Re.Dot :: Re.Atom (Re.Char ":") :: p) t = None.
Proof.
  induction t as [|c t IH]; [done|].
  intros [Hc Ht]%mentions_cons. specialize (IH Ht).
  simpl in *. rewrite (bool_decide_false (c = ":"%char)) by done.
  rewrite IH. by destruct (negb _).
Qed.

Lemma rename_pattern_match (old_key new_key : string) :
  mentions ":" old_key = false →
  mentions Re.newline old_key = false →
  mentions Re.newline new_key = false →
  Re.re_match rename_pattern ("rename:" +:+ old_key +:+ ":" +:+ new_key)
  = Some [old_key; new_key].
Proof.
  intros Hcolon Hnl1 Hnl2. unfold Re.re_match, rename_pattern.
  rewrite match_here_literal.
  apply lazy_dot_to_first_colon; [done..|].
  by apply lazy_dot_to_end.
Qed.

Lemma rename_pattern_no_colon (t : string) :
  mentions ":" t = false →
  Re.re_match rename_pattern ("rename:" +:+ t) = None.
Proof.
  intros Hcolon. unfold Re.re_match, rename_pattern.
  rewrite match_here_literal. by apply lazy_dot_no_colon.
Qed.

Lemma delete_pattern_match (key : string) :
  mentions Re.newline key = false →
  Re.re_match delete_pattern ("delete:" +:+ key) = Some [key].
Proof.
  intros Hnl. unfold Re.re_match, delete_pattern.
  rewrite match_here_literal. by apply lazy_dot_to_end.
Qed.

Lemma rename_pattern_startswith (s : string) :
  is_Some (Re.re_match rename_pattern s) → startswith s "rename:" = true.
Proof. apply match_here_literal_prefix. Qed.

Lemma delete_pattern_startswith (s : string) :
  is_Some (Re.re_match delete_pattern s) → startswith s "delete:" = true.
Proof. apply match_here_literal_prefix. Qed.

Lemma startswith_append (pre s : string) : startswith (pre +:+ s) pre = true.
Proof.
  unfold startswith. induction pre as [|a pre IH]; [by destruct s|].
  rewrite append_cons. cbn [String.prefix].
  destruct (ascii_dec a a); [exact IH | done].
Qed.

(** No string starts with both prefixes. *)
Lemma startswith_delete_not_rename (s : string) :
  startswith s "delete:" = true → startswith s "rename:" = false.
Proof.
  unfold startswith. destruct s as [|c s].
  - intros Hd. discriminate Hd.
  - cbn [String.prefix].
    destruct (ascii_dec "d" c) as [<-|]; [|intros Hd; discriminate Hd].
    intros _.
    destruct (ascii_dec "r" "d") as [Heq|]; [discriminate Heq | reflexivity].
Qed.

End PatternProperties.

(** * Properties of [ComponentLoader] *)

Section LoaderProperties.

Import ComponentLoader.

Context {Path : Type} `{Path_countable : Countable Path} `{!Pathlib Path}.
Variable w : World Path.
Implicit Types (reg : Registry Path) (out : list string) (c : PyClass).

(** ** The two lookups, case by case *)

Lemma from_module_cases module_name class_name out :
  _get_class_from_module w module_name class_name out =
  match import_module w module_name with
  | Ok module => (Ok (getattr_or_None module class_name), out)
  | Raise e =>
      if isinstance e ModuleNotFoundError then (Ok None, out)
      else (Raise e, out)
  end.
Proof.
  unfold _get_class_from_module, try_except, mbind, M_bind, bind, lift, ret.
  destruct (import_module w module_name); reflexivity.
Qed.

(** The loader prints nothing during a namespace lookup. *)
Lemma from_module_silent module_name class_name out r out' :
  _get_class_from_module w module_name class_name out = (r, out') → out' = out.
Proof.
  rewrite from_module_cases.
  destruct (import_module w module_name) as [module|e];
    [|destruct (isinstance e ModuleNotFoundError)]; congruence.
Qed.

Lemma from_file_cases file_path class_name out :
  _get_class_from_file w file_path class_name out =
  if negb (is_file w file_path) then (Ok None, out)
  else
    match spec_from_file_location w (stem file_path) file_path with
    | None => (Ok None, out)
    | Some module_spec =>
        match loader module_spec with
        | None => (Ok None, out)
        | Some ld =>
            match exec_module ld with
            | Ok module => (Ok (getattr_or_None module class_name), out)
            | Raise e =>
                if isinstance e Exception
                then (Ok None, out ++ [load_error_line (stem file_path) e])
                else (Raise e, out)
            end
        end
    end.
Proof.
  unfold _get_class_from_file.
  destruct (negb (is_file w file_path)); [reflexivity|].
  destruct (spec_from_file_location w (stem file_path) file_path)
    as [module_spec|]; [|reflexivity].
  destruct (loader module_spec) as [ld|]; [|reflexivity].
  unfold try_except, mbind, M_bind, bind, lift, ret, print.
  destruct (exec_module ld) as [module|e]; [reflexivity|].
  destruct (isinstance e Exception); reflexivity.
Qed.

(** ** The search loop *)

Section Loop.

Context {A : Type}.
Variable f : A → M (option PyClass).

Lemma first_not_None_skip x xs out out' :
  f x out = (Ok None, out') →
  first_not_None f (x :: xs) out = first_not_None f xs out'.
Proof.
  intros Hx. simpl. unfold mbind, M_bind, bind. by rewrite Hx.
Qed.

Lemma first_not_None_hit x xs out out' c :
  f x out = (Ok (Some c), out') →
  first_not_None f (x :: xs) out = (Ok (Some c), out').
Proof.
  intros Hx. simpl. unfold mbind, M_bind, bind. by rewrite Hx.
Qed.

Lemma first_not_None_raise x xs out out' e :
  f x out = (Raise e, out') →
  first_not_None f (x :: xs) out = (Raise e, out').
Proof.
  intros Hx. simpl. unfold mbind, M_bind, bind. by rewrite Hx.
Qed.

(** Sources that find nothing and print nothing are passed over. *)
Lemma first_not_None_pass pre xs out :
  (∀ x, x ∈ pre → f x out = (Ok None, out)) →
  first_not_None f (pre ++ xs) out = first_not_None f xs out.
Proof.
  induction pre as [|x pre IH]; intros Hpre; [done|].
  simpl app. rewrite (first_not_None_skip x _ out out).
  - apply IH. intros y Hy. apply Hpre. by right.
  - apply Hpre. by left.
Qed.

(** Sources that find nothing are passed over, whatever they print. *)
Lemma first_not_None_exhaust xs :
  (∀ x out, x ∈ xs → ∃ out', f x out = (Ok None, out')) →
  ∀ out, ∃ out', first_not_None f xs out = (Ok None, out').
Proof.
  induction xs as [|x xs IH]; intros Hxs out.
  - by exists out.
  - destruct (Hxs x out) as [out1 Hx]; [by left|].
    rewrite (first_not_None_skip _ _ _ _ Hx).
    apply IH. intros y o Hy. apply Hxs. by right.
Qed.

(** A class that the loop returns was found by one of the sources. *)
Lemma first_not_None_found xs out out' c :
  first_not_None f xs out = (Ok (Some c), out') →
  ∃ x o, x ∈ xs ∧ f x o = (Ok (Some c), out').
Proof.
  revert out. induction xs as [|x xs IH]; intros out; [done|].
  simpl. unfold mbind, M_bind, bind.
  destruct (f x out) as [[[c1|]|e] out1] eqn:Hx.
  - intros [= <- <-]. exists x, out. split; [by left | done].
  - intros Hrest. destruct (IH _ Hrest) as (y & o & Hy & Hf).
    exists y, o. split; [by right | done].
  - done.
Qed.

(** The outcome of the loop when no source prints. *)
Lemma first_not_None_silent xs out r out' :
  (∀ x o r' o', f x o = (r', o') → o' = o) →
  first_not_None f xs out = (Ok r, out') →
  out' = out ∧
  match r with
  | Some c => ∃ x, x ∈ xs ∧ f x out = (Ok (Some c), out)
  | None => ∀ x, x ∈ xs → f x out = (Ok None, out)
  end.
Proof.
  intros Hsilent. induction xs as [|x xs IH].
  - intros [= <- <-]. split; [done|]. intros x Hx. by apply elem_of_nil in Hx.
  - simpl. unfold mbind, M_bind, bind.
    destruct (f x out) as [[[c1|]|e] out1] eqn:Hx;
      pose proof (Hsilent _ _ _ _ Hx) as ->.
    + intros [= <- <-]. split; [done|]. exists x. split; [by left | done].
    + intros Hrest. destruct (IH Hrest) as [-> Hr]. split; [done|].
      destruct r as [c|].
      * destruct Hr as (y & Hy & Hf). exists y. split; [by right | done].
      * intros y [->|Hy]%elem_of_cons; [done | by apply Hr].
    + done.
Qed.

(** When every source answers without printing and one of them finds the
    name, the loop returns what the first such source found. *)
Lemma first_not_None_answers xs out x0 c0 :
  x0 ∈ xs →
  f x0 out = (Ok (Some c0), out) →
  (∀ x, x ∈ xs → ∃ r, f x out = (Ok r, out)) →
  ∃ x c, x ∈ xs ∧ f x out = (Ok (Some c), out)
         ∧ first_not_None f xs out = (Ok (Some c), out).
Proof.
  intros Hin Hf0 Hok.
  induction xs as [|x xs IH]; [by apply elem_of_nil in Hin|].
  destruct (Hok x) as [[c|] Hx]; [by left | |].
  - exists x, c. split; [by left|]. split; [done|].
    by apply first_not_None_hit.
  - destruct IH as (y & c & Hy & Hfy & Hloop).
    + apply elem_of_cons in Hin as [->|Hin]; [congruence | done].
    + intros y Hy. apply Hok. by right.
    + exists y, c. split; [by right|]. split; [done|].
      by rewrite (first_not_None_skip x xs out out Hx).
Qed.

End Loop.

(** ** [get_class], case by case *)

Lemma get_class_cases reg class_name out :
  get_class w reg class_name out =
  match first_not_None (fun m => _get_class_from_module w m class_name)
          (iterate (modules_order w) (_registered_modules reg)) out with
  | (Ok (Some c), out1) => (Ok c, out1)
  | (Raise e, out1) => (Raise e, out1)
  | (Ok None, out1) =>
      match first_not_None (fun p => _get_class_from_file w p class_name)
              (iterate (paths_order w) (_registered_paths reg)) out1 with
      | (Ok (Some c), out2) => (Ok c, out2)
      | (Raise e, out2) => (Raise e, out2)
      | (Ok None, out2) =>
          (Raise (mkExc ValueError (not_found_message class_name)), out2)
      end
  end.
Proof.
  unfold get_class, mbind, M_bind, bind.
  destruct (first_not_None _ _ out) as [[[c|]|e] out1]; try reflexivity.
  destruct (first_not_None _ _ out1) as [[[c|]|e] out2]; reflexivity.
Qed.

Lemma elem_of_iterate {A} `{Countable A} (ord : SetIteration A)
    (s : gset A) (x : A) :
  x ∈ iterate ord s ↔ x ∈ s.
Proof. rewrite (iterate_perm ord s). apply elem_of_elements. Qed.

(** ** Search order *)

(** When a source offers the name and no source prints, the loop returns
    what the first offering source found, unless a source before it
    raises. *)
Lemma first_not_None_decided {A} (f : A → M (option PyClass)) xs out x0 c0 :
  (∀ x o r o', f x o = (r, o') → o' = o) →
  x0 ∈ xs →
  f x0 out = (Ok (Some c0), out) →
  (∃ x c, x ∈ xs ∧ f x out = (Ok (Some c), out)
          ∧ first_not_None f xs out = (Ok (Some c), out))
  ∨ (∃ x e, x ∈ xs ∧ f x out = (Raise e, out)
            ∧ first_not_None f xs out = (Raise e, out)).
Proof.
  intros Hsilent Hin Hf0.
  induction xs as [|x xs IH]; [by apply elem_of_nil in Hin|].
  destruct (f x out) as [[[c|]|e] o] eqn:Hx;
    pose proof (Hsilent _ _ _ _ Hx) as ->.
  - left. exists x, c. split; [by left|]. split; [done|].
    by apply first_not_None_hit.
  - apply elem_of_cons in Hin as [->|Hin]; [congruence|].
    rewrite (first_not_None_skip f x xs out out Hx).
    destruct (IH Hin) as [(y & c & Hy & Hfy & Hloop)|(y & e & Hy & Hfy & Hloop)].
    + left. exists y, c. split; [by right | done].
    + right. exists y, e. split; [by right | done].
  - right. exists x, e. split; [by left|]. split; [done|].
    by apply first_not_None_raise.
Qed.

(** C3 (as amended).  [get_class] walks the registered namespaces, in the
    order the set hands them out, before it looks at any registered path:
    - the first namespace that offers the name decides the result, whatever
      the later namespaces and the paths hold, when the namespaces before
      it find nothing;
    - a class that [get_class] returns is offered by a registered namespace,
      or else no registered namespace offers the name and a registered path
      does;
    - when a registered namespace offers the name and every registered
      namespace can be looked up, [get_class] returns a namespace's class,
      whether or not a path offers the name too;
    - in that case the result is the same for every set of registered
      paths;
    - when a registered namespace offers the name, [get_class] returns a
      namespace's class or raises what the lookup of a registered namespace
      raised: it never returns a path's class and never reports the name
      as not found. *)
Theorem get_class_namespaces_before_paths reg class_name out :
  let from_module := fun m => _get_class_from_module w m class_name in
  let from_file := fun p => _get_class_from_file w p class_name in
  (∀ pre m post c,
     iterate (modules_order w) (_registered_modules reg) = pre ++ m :: post →
     (∀ m', m' ∈ pre → from_module m' out = (Ok None, out)) →
     from_module m out = (Ok (Some c), out) →
     get_class w reg class_name out = (Ok c, out))
  ∧ (∀ c out',
       get_class w reg class_name out = (Ok c, out') →
       (out' = out ∧
        ∃ m, m ∈ _registered_modules reg ∧
             from_module m out = (Ok (Some c), out))
       ∨ ((∀ m, m ∈ _registered_modules reg →
                from_module m out = (Ok None, out)) ∧
          ∃ p o, p ∈ _registered_paths reg ∧
                 from_file p o = (Ok (Some c), out')))
  ∧ (∀ m0 c0,
       m0 ∈ _registered_modules reg →
       from_module m0 out = (Ok (Some c0), out) →
       (∀ m, m ∈ _registered_modules reg →
             ∃ r, from_module m out = (Ok r, out)) →
       ∃ m c, m ∈ _registered_modules reg ∧
              from_module m out = (Ok (Some c), out) ∧
              get_class w reg class_name out = (Ok c, out))
  ∧ (∀ reg' m0 c0,
       _registered_modules reg' = _registered_modules reg →
       m0 ∈ _registered_modules reg →
       from_module m0 out = (Ok (Some c0), out) →
       (∀ m, m ∈ _registered_modules reg →
             ∃ r, from_module m out = (Ok r, out)) →
       get_class w reg' class_name out = get_class w reg class_name out)
  ∧ (∀ m0 c0,
       m0 ∈ _registered_modules reg →
       from_module m0 out = (Ok (Some c0), out) →
       (∃ m c, m ∈ _registered_modules reg ∧
               from_module m out = (Ok (Some c), out) ∧
               get_class w reg class_name out = (Ok c, out))
       ∨ (∃ m e, m ∈ _registered_modules reg ∧
                 from_module m out = (Raise e, out) ∧
                 get_class w reg class_name out = (Raise e, out))).
Proof.
  intros from_module from_file.
  assert (Hsilent : ∀ x o r' o', from_module x o = (r', o') → o' = o).
  { intros x o r' o'. apply from_module_silent. }
  split; [|split; [|split; [|split]]].
  - intros pre m post c Hms Hpre Hm.
    rewrite get_class_cases, Hms.
    rewrite (first_not_None_pass from_module pre _ out Hpre).
    by rewrite (first_not_None_hit from_module m post out out c Hm).
  - intros c out'. rewrite get_class_cases.
    destruct (first_not_None _ _ out) as [[[c1|]|e] out1] eqn:Hmods.
    + intros [= <- <-].
      destruct (first_not_None_silent from_module _ _ _ _ Hsilent Hmods)
        as [-> (m & Hm & Hf)].
      left. split; [done|]. exists m. split; [|done].
      by apply elem_of_iterate in Hm.
    + destruct (first_not_None_silent from_module _ _ _ _ Hsilent Hmods)
        as [-> Hnone].
      destruct (first_not_None
                  (fun p => _get_class_from_file w p class_name) _ out)
        as [[[c2|]|e] out2] eqn:Hpaths;
        intros Hres; simplify_eq.
      right. split.
      * intros m Hm. apply Hnone. by apply elem_of_iterate.
      * destruct (first_not_None_found from_file _ _ _ _ Hpaths)
          as (p & o & Hp & Hf).
        exists p, o. split; [by apply elem_of_iterate in Hp | done].
    + done.
  - intros m0 c0 Hm0 Hf0 Hall.
    destruct (first_not_None_answers from_module
                (iterate (modules_order w) (_registered_modules reg))
                out m0 c0) as (m & c & Hm & Hf & Hloop).
    + by apply elem_of_iterate.
    + done.
    + intros m Hm. apply Hall. by apply elem_of_iterate in Hm.
    + exists m, c. split; [by apply elem_of_iterate in Hm|]. split; [done|].
      rewrite get_class_cases. fold from_module. by rewrite Hloop.
  - intros reg' m0 c0 Hsame Hm0 Hf0 Hall.
    destruct (first_not_None_answers from_module
                (iterate (modules_order w) (_registered_modules reg))
                out m0 c0) as (m & c & Hm & Hf & Hloop).
    + by apply elem_of_iterate.
    + done.
    + intros m Hm. apply Hall. by apply elem_of_iterate in Hm.
    + rewrite !get_class_cases, Hsame. fold from_module. by rewrite Hloop.
  - intros m0 c0 Hm0 Hf0.
    destruct (first_not_None_decided from_module
                (iterate (modules_order w) (_registered_modules reg))
                out m0 c0 Hsilent)
      as [(m & c & Hm & Hf & Hloop)|(m & e & Hm & Hf & Hloop)].
    + by apply elem_of_iterate.
    + done.
    + left. exists m, c. split; [by apply elem_of_iterate in Hm|].
      split; [done|].
      rewrite get_class_cases. fold from_module. by rewrite Hloop.
    + right. exists m, e. split; [by apply elem_of_iterate in Hm|].
      split; [done|].
      rewrite get_class_cases. fold from_module. by rewrite Hloop.
Qed.

(** ** Failures while loading

    C4 (as amended).  During resolution
    - a namespace whose import raises [ModuleNotFoundError] counts as no
      match and the loop goes on with the next source;
    - a namespace whose import raises anything else makes the lookup raise
      that same exception, and so does [get_class] once the loop reaches
      it;
    - a file whose execution raises an instance of [Exception] counts as
      no match for that file: one line naming the module and the exception
      is printed and the loop goes on with the next source;
    - a file whose execution raises an exception outside [Exception]
      ([SystemExit], [KeyboardInterrupt]) makes the lookup raise it. *)
Theorem load_failures class_name out :
  let from_module := fun m => _get_class_from_module w m class_name in
  let from_file := fun p => _get_class_from_file w p class_name in
  (∀ m e,
     import_module w m = Raise e →
     isinstance e ModuleNotFoundError = true →
     from_module m out = (Ok None, out) ∧
     ∀ rest, first_not_None from_module (m :: rest) out
             = first_not_None from_module rest out)
  ∧ (∀ m e,
       import_module w m = Raise e →
       isinstance e ModuleNotFoundError = false →
       from_module m out = (Raise e, out) ∧
       ∀ reg pre post,
         iterate (modules_order w) (_registered_modules reg)
           = pre ++ m :: post →
         (∀ m', m' ∈ pre → from_module m' out = (Ok None, out)) →
         get_class w reg class_name out = (Raise e, out))
  ∧ (∀ p module_spec ld e,
       is_file w p = true →
       spec_from_file_location w (stem p) p = Some module_spec →
       loader module_spec = Some ld →
       exec_module ld = Raise e →
       (isinstance e Exception = true →
        from_file p out = (Ok None, out ++ [load_error_line (stem p) e]) ∧
        ∀ rest, first_not_None from_file (p :: rest) out
                = first_not_None from_file rest
                    (out ++ [load_error_line (stem p) e]))
       ∧ (isinstance e Exception = false →
          from_file p out = (Raise e, out))).
Proof.
  intros from_module from_file. split; [|split].
  - intros m e Himp Hcls.
    assert (Hm : from_module m out = (Ok None, out)).
    { unfold from_module. by rewrite from_module_cases, Himp, Hcls. }
    split; [done|]. intros rest.
    by apply (first_not_None_skip from_module).
  - intros m e Himp Hcls.
    assert (Hm : from_module m out = (Raise e, out)).
    { unfold from_module. by rewrite from_module_cases, Himp, Hcls. }
    split; [done|]. intros reg pre post Hms Hpre.
    rewrite get_class_cases, Hms.
    rewrite (first_not_None_pass from_module pre _ out Hpre).
    by rewrite (first_not_None_raise from_module m post out out e Hm).
  - intros p module_spec ld e Hfile Hspec Hld Hexec.
    assert (Hp : from_file p out =
                 if isinstance e Exception
                 then (Ok None, out ++ [load_error_line (stem p) e])
                 else (Raise e, out)).
    { unfold from_file. by rewrite from_file_cases, Hfile, Hspec, Hld, Hexec. }
    split; intros Hcls; rewrite Hcls in Hp; [|done].
    split; [done|]. intros rest.
    by apply (first_not_None_skip from_file).
Qed.

(** ** The not-found error *)

Lemma contains_middle (pre sub post : string) :
  contains (pre +:+ sub +:+ post) sub.
Proof. by exists pre, post. Qed.

Lemma not_found_message_names class_name :
  contains (not_found_message class_name) class_name.
Proof. apply contains_middle. Qed.

Lemma unknown_operation_message_names class_name :
  contains (unknown_operation_message class_name) class_name.
Proof.
  exists "Unknown context operation: ", "".
  unfold unknown_operation_message. by rewrite append_empty_r.
Qed.

(** When every registered source finds nothing, [get_class] raises its
    not-found error. *)
Lemma get_class_not_found reg class_name out :
  (∀ m, m ∈ _registered_modules reg →
        _get_class_from_module w m class_name out = (Ok None, out)) →
  (∀ p o, p ∈ _registered_paths reg →
          ∃ o', _get_class_from_file w p class_name o = (Ok None, o')) →
  ∃ out', get_class w reg class_name out
          = (Raise (mkExc ValueError (not_found_message class_name)), out').
Proof.
  intros Hmods Hpaths. rewrite get_class_cases.
  rewrite <- (app_nil_r (iterate (modules_order w) _)).
  rewrite first_not_None_pass.
  2:{ intros m Hm. apply Hmods. by apply elem_of_iterate in Hm. }
  simpl first_not_None at 1. unfold ret at 1.
  destruct (first_not_None_exhaust
              (fun p => _get_class_from_file w p class_name)
              (iterate (paths_order w) (_registered_paths reg))) with (out := out)
    as [out' ->].
  { intros p o Hp. apply Hpaths. by apply elem_of_iterate in Hp. }
  by exists out'.
Qed.

(** ** [get_context_operation], case by case *)

Lemma get_context_operation_cases reg class_name out :
  get_context_operation w reg class_name out =
  match get_class w reg class_name out with
  | (Ok c, out') => (Ok c, out')
  | (Raise e, out') =>
      if isinstance e ValueError then special_operation class_name out'
      else (Raise e, out')
  end.
Proof.
  unfold get_context_operation, try_except, mbind, M_bind, bind, ret.
  destruct (get_class w reg class_name out) as [[c|e] out']; [reflexivity|].
  destruct (isinstance e ValueError); reflexivity.
Qed.

(** C6.  When every registered namespace and every registered path finds
    nothing, [get_class] raises a [ValueError] whose message is the
    not-found text around the requested name, so the name occurs in it
    verbatim.  When the registry's lookup of a descriptor ended in a
    [ValueError] and the descriptor matches neither pattern,
    [get_context_operation] raises a [ValueError] whose message is
    [Unknown context operation: ] followed by the descriptor, so the
    descriptor occurs in it verbatim. *)
Theorem errors_carry_the_lookup_string reg class_name out :
  ((∀ m, m ∈ _registered_modules reg →
         _get_class_from_module w m class_name out = (Ok None, out)) →
   (∀ p o, p ∈ _registered_paths reg →
           ∃ o', _get_class_from_file w p class_name o = (Ok None, o')) →
   ∃ out',
     get_class w reg class_name out
       = (Raise (mkExc ValueError (not_found_message class_name)), out')
     ∧ contains (not_found_message class_name) class_name)
  ∧ (∀ e out',
       get_class w reg class_name out = (Raise e, out') →
       isinstance e ValueError = true →
       Re.re_match rename_pattern class_name = None →
       Re.re_match delete_pattern class_name = None →
       get_context_operation w reg class_name out
         = (Raise (mkExc ValueError (unknown_operation_message class_name)),
            out')
       ∧ contains (unknown_operation_message class_name) class_name).
Proof.
  split.
  - intros Hmods Hpaths.
    destruct (get_class_not_found reg class_name out Hmods Hpaths)
      as [out' Hraise].
    exists out'. split; [done | apply not_found_message_names].
  - intros e out' Hget Hcls Hrename Hdelete.
    split; [|apply unknown_operation_message_names].
    rewrite get_context_operation_cases, Hget, Hcls.
    unfold special_operation. rewrite Hrename, Hdelete.
    by destruct (startswith class_name "rename:"),
                (startswith class_name "delete:").
Qed.

(** C5 (as amended).  [get_context_operation] first asks [get_class] and
    returns its class when there is one.  It goes on to the descriptor
    patterns exactly when [get_class] raised an instance of [ValueError]:
    that is the class of the not-found error, and it is also the class of
    any [ValueError] that escaped from a namespace import.  An exception
    that is not a [ValueError] is raised on to the caller. *)
Theorem get_context_operation_delegates reg class_name out :
  (∀ c out',
     get_class w reg class_name out = (Ok c, out') →
     get_context_operation w reg class_name out = (Ok c, out'))
  ∧ (∀ e out',
       get_class w reg class_name out = (Raise e, out') →
       isinstance e ValueError = true →
       get_context_operation w reg class_name out
       = special_operation class_name out')
  ∧ (∀ e out',
       get_class w reg class_name out = (Raise e, out') →
       isinstance e ValueError = false →
       get_context_operation w reg class_name out = (Raise e, out'))
  ∧ isinstance (mkExc ValueError (not_found_message class_name)) ValueError
    = true.
Proof.
  repeat split.
  - intros c out' Hget. by rewrite get_context_operation_cases, Hget.
  - intros e out' Hget Hcls.
    by rewrite get_context_operation_cases, Hget, Hcls.
  - intros e out' Hget Hcls.
    by rewrite get_context_operation_cases, Hget, Hcls.
Qed.

(** C7.  For a descriptor that the registry did not find:
    - when [rename:(.*?):(.*?)$] matches it with groups [old_key] and
      [new_key], the result is [rename_context_key old_key new_key];
    - when [delete:(.*?)$] matches it with group [key], the result is
      [delete_context_key key];
    - [rename:a:b] gives an operation that turns a context holding [a]
      into one that holds the same value under [b] and has no [a], and the
      context [{a: 5}] into [{b: 5}];
    - [delete:a] gives an operation that turns [{a: 5, c: 7}] into
      [{c: 7}]. *)
Theorem descriptor_grammar reg out out' :
  let not_found := fun d =>
    get_class w reg d out
    = (Raise (mkExc ValueError (not_found_message d)), out') in
  (∀ d old_key new_key,
     not_found d →
     Re.re_match rename_pattern d = Some [old_key; new_key] →
     get_context_operation w reg d out
     = (Ok (rename_context_key old_key new_key), out'))
  ∧ (∀ d key,
       not_found d →
       Re.re_match delete_pattern d = Some [key] →
       get_context_operation w reg d out
       = (Ok (delete_context_key key), out'))
  ∧ (not_found "rename:a:b" →
     ∃ op,
       get_context_operation w reg "rename:a:b" out = (Ok op, out')
       ∧ (∀ (context : ContextObserver.ContextType Z) v,
            ContextObserver.get_value context "a" = Some v →
            ∃ context',
              operate_context op context = Some context'
              ∧ ContextObserver.get_value context' "b" = Some v
              ∧ ContextObserver.get_value context' "a" = None)
       ∧ operate_context op
           (ContextObserver.mkContextType ({["a" := 5]} : gmap string Z))
         = Some (ContextObserver.mkContextType {["b" := 5]}))
  ∧ (not_found "delete:a" →
     ∃ op,
       get_context_operation w reg "delete:a" out = (Ok op, out')
       ∧ operate_context op
           (ContextObserver.mkContextType
              ({["a" := 5; "c" := 7]} : gmap string Z))
         = Some (ContextObserver.mkContextType {["c" := 7]})).
Proof.
  intros not_found.
  assert (Hrename : ∀ d old_key new_key,
            not_found d →
            Re.re_match rename_pattern d = Some [old_key; new_key] →
            get_context_operation w reg d out
            = (Ok (rename_context_key old_key new_key), out')).
  { intros d old_key new_key Hd Hmatch.
    rewrite get_context_operation_cases, Hd. simpl.
    unfold special_operation.
    rewrite rename_pattern_startswith by (rewrite Hmatch; by eexists).
    by rewrite Hmatch. }
  assert (Hdelete : ∀ d key,
            not_found d →
            Re.re_match delete_pattern d = Some [key] →
            get_context_operation w reg d out
            = (Ok (delete_context_key key), out')).
  { intros d key Hd Hmatch.
    rewrite get_context_operation_cases, Hd. simpl.
    unfold special_operation.
    assert (Hpre : startswith d "delete:" = true).
    { apply delete_pattern_startswith. rewrite Hmatch. by eexists. }
    rewrite (startswith_delete_not_rename d Hpre), Hpre.
    by rewrite Hmatch. }
  split; [exact Hrename|]. split; [exact Hdelete|]. split.
  - intros Hd. exists (rename_context_key "a" "b").
    split; [by apply Hrename|]. split.
    + intros context v Ha. unfold ContextObserver.get_value in Ha.
      simpl. rewrite Ha. eexists. split; [done|].
      unfold ContextObserver.get_value. simpl.
      rewrite lookup_insert_eq. split; [done|].
      rewrite lookup_insert_ne by done. apply lookup_delete_eq.
    + simpl. rewrite lookup_singleton_eq.
      by rewrite delete_singleton_eq, insert_empty.
  - intros Hd. exists (delete_context_key "a").
    split; [by apply Hdelete|].
    simpl. rewrite lookup_insert_eq.
    by rewrite delete_insert_eq, delete_singleton_ne.
Qed.

(** C10 (as amended).  For a descriptor that the registry did not find:
    - [rename:] followed by text [old_key], a colon and text [new_key],
      where [old_key] has no colon and neither text has a newline, gives
      the operation bound to [old_key] and [new_key]: the split is at the
      first colon, further colons stay in [new_key], either text may be
      empty; so [rename:a:b:c] binds [a] and [b:c], and [rename::x] binds
      the empty key and [x];
    - [delete:] followed by text [key] without a newline gives the
      operation bound to [key]; so [delete:] binds the empty key;
    - [rename:] followed by text without a colon raises the
      unknown-operation error. *)
Theorem descriptor_splits_at_first_colon reg out out' :
  let not_found := fun d =>
    get_class w reg d out
    = (Raise (mkExc ValueError (not_found_message d)), out') in
  (∀ old_key new_key,
     mentions ":" old_key = false →
     mentions Re.newline old_key = false →
     mentions Re.newline new_key = false →
     not_found ("rename:" +:+ old_key +:+ ":" +:+ new_key) →
     get_context_operation w reg
       ("rename:" +:+ old_key +:+ ":" +:+ new_key) out
     = (Ok (RenameOperation old_key new_key), out'))
  ∧ (not_found "rename:a:b:c" →
     get_context_operation w reg "rename:a:b:c" out
     = (Ok (RenameOperation "a" "b:c"), out'))
  ∧ (not_found "rename::x" →
     get_context_operation w reg "rename::x" out
     = (Ok (RenameOperation "" "x"), out'))
  ∧ (∀ key,
       mentions Re.newline key = false →
       not_found ("delete:" +:+ key) →
       get_context_operation w reg ("delete:" +:+ key) out
       = (Ok (DeleteOperation key), out'))
  ∧ (not_found "delete:" →
     get_context_operation w reg "delete:" out
     = (Ok (DeleteOperation ""), out'))
  ∧ (∀ t,
       mentions ":" t = false →
       not_found ("rename:" +:+ t) →
       get_context_operation w reg ("rename:" +:+ t) out
       = (Raise (mkExc ValueError
                   (unknown_operation_message ("rename:" +:+ t))), out')).
Proof.
  intros not_found.
  assert (Hrename : ∀ old_key new_key,
            mentions ":" old_key = false →
            mentions Re.newline old_key = false →
            mentions Re.newline new_key = false →
            not_found ("rename:" +:+ old_key +:+ ":" +:+ new_key) →
            get_context_operation w reg
              ("rename:" +:+ old_key +:+ ":" +:+ new_key) out
            = (Ok (RenameOperation old_key new_key), out')).
  { intros old_key new_key Hcolon Hnl1 Hnl2 Hd.
    rewrite get_context_operation_cases, Hd. simpl.
    unfold special_operation. rewrite startswith_append.
    by rewrite (rename_pattern_match _ _ Hcolon Hnl1 Hnl2). }
  assert (Hdelete : ∀ key,
            mentions Re.newline key = false →
            not_found ("delete:" +:+ key) →
            get_context_operation w reg ("delete:" +:+ key) out
            = (Ok (DeleteOperation key), out')).
  { intros key Hnl Hd.
    rewrite get_context_operation_cases, Hd. simpl.
    unfold special_operation.
    rewrite (startswith_delete_not_rename _ (startswith_append _ _)).
    rewrite startswith_append.
    by rewrite (delete_pattern_match _ Hnl). }
  split; [exact Hrename|].
  split; [exact (Hrename "a" "b:c" eq_refl eq_refl eq_refl)|].
  split; [exact (Hrename "" "x" eq_refl eq_refl eq_refl)|].
  split; [exact Hdelete|].
  split; [exact (Hdelete "" eq_refl)|].
  intros t Hcolon Hd.
  rewrite get_context_operation_cases, Hd. simpl.
  unfold special_operation. rewrite startswith_append.
  by rewrite (rename_pattern_no_colon _ Hcolon).
Qed.

End LoaderProperties.

(** * Properties of registration *)

Section RegistrationProperties.

Import ComponentLoader.

Context {Path : Type} `{Path_countable : Countable Path} `{!Pathlib Path}.
Implicit Types (reg : Registry Path) (x : StrOrList).

(** Registration adds the given names to the set and touches nothing
    else. *)
Lemma register_modules_union x reg :
  register_modules x reg
  = mkRegistry (_registered_paths reg)
               (list_to_set (as_list x) ∪ _registered_modules reg).
Proof.
  unfold register_modules. revert reg.
  induction (as_list x) as [|m ms IH]; intros reg; simpl.
  - destruct reg. simpl. f_equal. by rewrite (left_id_L ∅ (∪)).
  - rewrite IH. simpl. f_equal.
    rewrite (assoc_L (∪)). f_equal. apply (comm_L (∪)).
Qed.

Lemma register_paths_union x reg :
  register_paths x reg
  = mkRegistry (list_to_set (PathOf <$> as_list x) ∪ _registered_paths reg)
               (_registered_modules reg).
Proof.
  unfold register_paths. revert reg.
  induction (as_list x) as [|p ps IH]; intros reg; simpl.
  - destruct reg. simpl. f_equal. by rewrite (left_id_L ∅ (∪)).
  - rewrite IH. simpl. f_equal.
    rewrite (assoc_L (∪)). f_equal. apply (comm_L (∪)).
Qed.

Lemma register_modules_known x reg :
  (∀ m, m ∈ as_list x → m ∈ _registered_modules reg) →
  register_modules x reg = reg.
Proof.
  intros Hknown. rewrite register_modules_union.
  destruct reg as [ps ms]. simpl in *. f_equal.
  apply set_eq. intros m. rewrite elem_of_union, elem_of_list_to_set.
  split; [|by right]. intros [Hm|Hm]; [by apply Hknown | done].
Qed.

Lemma register_paths_known x reg :
  (∀ p, p ∈ as_list x → PathOf p ∈ _registered_paths reg) →
  register_paths x reg = reg.
Proof.
  intros Hknown. rewrite register_paths_union.
  destruct reg as [ps ms]. simpl in *. f_equal.
  apply set_eq. intros p.
  rewrite elem_of_union, elem_of_list_to_set, list_elem_of_fmap.
  split; [|by right]. intros [(q & -> & Hq)|Hp]; [by apply Hknown | done].
Qed.

(** C9.  Registering what is registered already leaves the registry as it
    is, for a single string and for a list of strings, for namespaces and
    for paths; a registration done twice leaves the registry as the first
    one left it; and [get_class] then answers as before.  A single string
    is registered as the list that holds just that string. *)
Theorem registration_is_idempotent reg :
  (∀ ms, (∀ m, m ∈ ms → m ∈ _registered_modules reg) →
         register_modules (StrList ms) reg = reg)
  ∧ (∀ m, m ∈ _registered_modules reg →
          register_modules (OneStr m) reg = reg)
  ∧ (∀ ps, (∀ p, p ∈ ps → PathOf p ∈ _registered_paths reg) →
           register_paths (StrList ps) reg = reg)
  ∧ (∀ p, PathOf p ∈ _registered_paths reg →
          register_paths (OneStr p) reg = reg)
  ∧ (∀ x, register_modules x (register_modules x reg)
          = register_modules x reg)
  ∧ (∀ x, register_paths x (register_paths x reg) = register_paths x reg)
  ∧ (∀ s, register_modules (OneStr s) reg = register_modules (StrList [s]) reg
          ∧ register_paths (OneStr s) reg = register_paths (StrList [s]) reg)
  ∧ (∀ (w : World Path) x class_name out,
       get_class w (register_modules x (register_modules x reg)) class_name out
       = get_class w (register_modules x reg) class_name out
       ∧ get_class w (register_paths x (register_paths x reg)) class_name out
         = get_class w (register_paths x reg) class_name out).
Proof.
  assert (Htwice_m : ∀ x, register_modules x (register_modules x reg)
                          = register_modules x reg).
  { intros x. apply register_modules_known. intros m Hm.
    rewrite register_modules_union. simpl.
    apply elem_of_union_l. by apply elem_of_list_to_set. }
  assert (Htwice_p : ∀ x, register_paths x (register_paths x reg)
                          = register_paths x reg).
  { intros x. apply register_paths_known. intros p Hp.
    rewrite register_paths_union. simpl.
    apply elem_of_union_l, elem_of_list_to_set, list_elem_of_fmap. eauto. }
  repeat split.
  - intros ms Hms. by apply register_modules_known.
  - intros m Hm. apply register_modules_known.
    by intros m' ->%list_elem_of_singleton.
  - intros ps Hps. by apply register_paths_known.
  - intros p Hp. apply register_paths_known.
    by intros p' ->%list_elem_of_singleton.
  - exact Htwice_m.
  - exact Htwice_p.
  - by rewrite Htwice_m.
  - by rewrite Htwice_p.
Qed.

End RegistrationProperties.

(** * The properties at work in the sample world *)

Section Instances.

Import ComponentLoader Sample.

(** [Blur] is offered by a namespace and by a file: the namespace's class
    is returned. *)
Lemma get_class_namespaces_before_paths_witness :
  let reg := mkRegistry {["plugins/blur.py"]} {["pkg.ops"; "pkg.missing"]} in
  ∃ m c,
    m ∈ _registered_modules reg
    ∧ _get_class_from_module world m "Blur" [] = (Ok (Some c), [])
    ∧ get_class world reg "Blur" [] = (Ok c, []).
Proof.
  intros reg.
  destruct (get_class_namespaces_before_paths world reg "Blur" [])
    as (_ & _ & Hboth & _).
  apply (Hboth "pkg.ops" (LoadedClass "pkg.ops.Blur")).
  - apply elem_of_union_l, elem_of_singleton. reflexivity.
  - reflexivity.
  - intros m Hm. simpl in Hm.
    apply elem_of_union in Hm as [->%elem_of_singleton | ->%elem_of_singleton];
      eexists; reflexivity.
Defined.

(** C3 (as stated) fails when a registered namespace that raises while it
    is imported is visited before the namespace that offers the name:
    [Blur] is offered by the namespace [pkg.ops] and by the file
    [plugins/blur.py], and [get_class] raises the [ValueError] of
    [pkg.broken] instead of returning the namespace's class. *)
Lemma broken_namespace_hides_namespace_match :
  let w := with_modules_order world (reversed_order string) in
  let reg := mkRegistry {["plugins/blur.py"]} {["pkg.ops"; "pkg.broken"]} in
  iterate (modules_order w) (_registered_modules reg)
  = ["pkg.broken"; "pkg.ops"]
  ∧ _get_class_from_module w "pkg.ops" "Blur" []
    = (Ok (Some (LoadedClass "pkg.ops.Blur")), [])
  ∧ _get_class_from_file w "plugins/blur.py" "Blur" []
    = (Ok (Some (LoadedClass "blur.Blur")), [])
  ∧ get_class w reg "Blur" []
    = (Raise (mkExc ValueError "invalid literal for int()"), []).
Proof. repeat split. Qed.

(** A file that raises a [RuntimeError] is logged and passed over. *)
Lemma load_failures_witness :
  let from_file := fun p => _get_class_from_file world p "Blur" in
  let line :=
    load_error_line "plugins/bad.py" (mkExc RuntimeError "bad plugin") in
  from_file "plugins/bad.py" [] = (Ok None, [line])
  ∧ ∀ rest, first_not_None from_file ("plugins/bad.py" :: rest) []
            = first_not_None from_file rest [line].
Proof.
  intros from_file line.
  destruct (load_failures world "Blur" []) as (_ & _ & Hfile).
  apply (Hfile "plugins/bad.py"
           (mkModuleSpec
              (Some (mkLoader (Raise (mkExc RuntimeError "bad plugin")))))
           (mkLoader (Raise (mkExc RuntimeError "bad plugin")))
           (mkExc RuntimeError "bad plugin")
           eq_refl eq_refl eq_refl eq_refl).
  reflexivity.
Defined.

(** C4 (as stated) fails for a file that calls [sys.exit]: [SystemExit] is
    no [Exception], so the lookup of that file raises it, nothing is
    printed, and [get_class] raises it instead of going on. *)
Lemma exec_module_systemexit_is_not_caught :
  is_file world "plugins/exit.py" = true
  ∧ spec_from_file_location world (stem "plugins/exit.py") "plugins/exit.py"
    = file_with (Raise (mkExc SystemExit "1"))
  ∧ _get_class_from_file world "plugins/exit.py" "Blur" []
    = (Raise (mkExc SystemExit "1"), [])
  ∧ get_class world (mkRegistry {["plugins/exit.py"]} ∅) "Blur" []
    = (Raise (mkExc SystemExit "1"), []).
Proof. repeat split. Qed.

(** With nothing registered [delete:a] goes to the descriptor patterns. *)
Lemma get_context_operation_delegates_witness :
  get_context_operation world empty_registry "delete:a" []
  = special_operation "delete:a" [].
Proof.
  destruct (get_context_operation_delegates world empty_registry "delete:a" [])
    as (_ & Hvalue & _).
  apply (Hvalue (mkExc ValueError (not_found_message "delete:a")) []);
    reflexivity.
Defined.

(** C5 (as stated) fails when a registered namespace raises a [ValueError]
    while it is imported: [get_class] raises that error, which is not its
    not-found error, and [get_context_operation] takes it for one and
    answers from the descriptor patterns. *)
Lemma import_valueerror_is_intercepted :
  let reg := mkRegistry ∅ {["pkg.broken"]} in
  get_class world reg "delete:a" []
  = (Raise (mkExc ValueError "invalid literal for int()"), [])
  ∧ mkExc ValueError "invalid literal for int()"
    ≠ mkExc ValueError (not_found_message "delete:a")
  ∧ get_context_operation world reg "delete:a" []
    = (Ok (DeleteOperation "a"), []).
Proof. repeat split. discriminate. Qed.

(** A missing namespace and a broken file: the name is not found and the
    message names it. *)
Lemma errors_carry_the_lookup_string_witness :
  let reg := mkRegistry {["plugins/bad.py"]} {["pkg.missing"]} in
  ∃ out',
    get_class world reg "Sharpen" []
    = (Raise (mkExc ValueError (not_found_message "Sharpen")), out')
    ∧ contains (not_found_message "Sharpen") "Sharpen".
Proof.
  intros reg.
  apply (proj1 (errors_carry_the_lookup_string world reg "Sharpen" [])).
  - intros m Hm. simpl in Hm. apply elem_of_singleton in Hm as ->.
    reflexivity.
  - intros p o Hp. simpl in Hp. apply elem_of_singleton in Hp as ->.
    exists (o ++ [load_error_line "plugins/bad.py"
                    (mkExc RuntimeError "bad plugin")]).
    reflexivity.
Defined.

(** [rename:a:b] with nothing registered. *)
Lemma descriptor_grammar_witness :
  ∃ op,
    get_context_operation world empty_registry "rename:a:b" [] = (Ok op, [])
    ∧ (∀ (context : ContextObserver.ContextType Z) v,
         ContextObserver.get_value context "a" = Some v →
         ∃ context',
           operate_context op context = Some context'
           ∧ ContextObserver.get_value context' "b" = Some v
           ∧ ContextObserver.get_value context' "a" = None)
    ∧ operate_context op
        (ContextObserver.mkContextType ({["a" := 5]} : gmap string Z))
      = Some (ContextObserver.mkContextType {["b" := 5]}).
Proof.
  destruct (descriptor_grammar world empty_registry [] [])
    as (_ & _ & Hrename & _).
  apply Hrename. reflexivity.
Defined.

(** [rename:a:b:c] with nothing registered splits at the first colon. *)
Lemma descriptor_splits_at_first_colon_witness :
  get_context_operation world empty_registry
    ("rename:" +:+ "a" +:+ ":" +:+ "b:c") []
  = (Ok (RenameOperation "a" "b:c"), []).
Proof.
  apply (proj1 (descriptor_splits_at_first_colon world empty_registry [] [])
           "a" "b:c"); reflexivity.
Defined.

(** C10 (as stated) fails on text with a newline.  In [rename:a:b] followed
    by a newline, everything after the first colon is [b] and the newline,
    but the operation is bound to [b]; and [rename:a], a newline and [b:c]
    has a colon in its text and yet raises the unknown-operation error. *)
Lemma rename_descriptor_with_newline :
  let nl := String Re.newline "" in
  let d1 := "rename:" +:+ "a" +:+ ":" +:+ ("b" +:+ nl) in
  let d2 := "rename:" +:+ ("a" +:+ nl +:+ "b") +:+ ":" +:+ "c" in
  get_class world empty_registry d1 []
  = (Raise (mkExc ValueError (not_found_message d1)), [])
  ∧ mentions ":" "a" = false
  ∧ get_context_operation world empty_registry d1 []
    = (Ok (RenameOperation "a" "b"), [])
  ∧ RenameOperation "a" "b" ≠ RenameOperation "a" ("b" +:+ nl)
  ∧ get_class world empty_registry d2 []
    = (Raise (mkExc ValueError (not_found_message d2)), [])
  ∧ mentions ":" ("a" +:+ nl +:+ "b") = false
  ∧ get_context_operation world empty_registry d2 []
    = (Raise (mkExc ValueError (unknown_operation_message d2)), []).
Proof. repeat split. discriminate. Qed.

(** Registering [pkg.ops] where it is registered already. *)
Lemma registration_is_idempotent_witness :
  let reg := mkRegistry {["plugins/blur.py"]} {["pkg.ops"]} in
  register_modules (OneStr "pkg.ops") reg = reg
  ∧ register_paths (OneStr "plugins/blur.py") reg = reg.
Proof.
  intros reg.
  destruct (registration_is_idempotent reg) as (_ & Hm & _ & Hp & _).
  split.
  - apply Hm. apply elem_of_singleton. reflexivity.
  - apply Hp. apply elem_of_singleton. reflexivity.
Defined.

End Instances.

(** * Further properties of [update_context] on chains *)

Section ChainProperties.

Import ContextObserver.

Context {V : Type}.
Implicit Types (h : Heap V) (key : string) (value : V) (index : option Z).

(** What a successful write through a chain leaves behind. *)
Lemma update_context_chainmap_inv h (c : ChainMap) key value index h' c' :
  update_context h (OfChainMap c) key value index = Ok (h', c') →
  ∃ l0 rest, maps c = l0 :: rest
             ∧ h' = heap_setitem h l0 key value
             ∧ c' = OfChainMap c.
Proof.
  simpl. destruct (maps c) as [|l0 rest]; [done|].
  intros [= <- <-]. by exists l0, rest.
Qed.

Lemma heap_setitem_other_key h l key value l' key' :
  key' ≠ key → heap_setitem h l key value l' !! key' = h l' !! key'.
Proof.
  intros Hne. unfold heap_setitem.
  destruct (decide (l' = l)) as [->|]; [by rewrite lookup_insert_ne | done].
Qed.

(** A chain reads from the mappings it holds and from nothing else. *)
Lemma chain_get_ext h h' ms key :
  (∀ l, l ∈ ms → h' l !! key = h l !! key) →
  chain_get h' ms key = chain_get h ms key.
Proof.
  induction ms as [|l ms IH]; intros Hsame; [done|].
  simpl. rewrite Hsame by by left.
  destruct (h l !! key); [done|]. apply IH. intros l' Hl'. apply Hsame. by right.
Qed.

(** X1.  After a write of [key] through a chain, every chain, the written one
    and any chain that shares mappings with it, reads every other key as
    before. *)
Theorem update_context_chainmap_keeps_other_keys
    h (c : ChainMap) key value index h' c' (ms : list loc) key' :
  update_context h (OfChainMap c) key value index = Ok (h', c') →
  key' ≠ key →
  chain_get h' ms key' = chain_get h ms key'.
Proof.
  intros (l0 & rest & _ & -> & _)%update_context_chainmap_inv Hne.
  apply chain_get_ext. intros l _. by apply heap_setitem_other_key.
Qed.

(** X2.  A write through a chain is invisible to every chain that does not hold
    the written chain's first mapping: a sibling branch with its own local
    mapping, and the parent's own chain, read every key as before. *)
Theorem update_context_chainmap_isolates_other_chains
    h (c : ChainMap) key value index h' c' (l0 : loc) (ms : list loc) key' :
  update_context h (OfChainMap c) key value index = Ok (h', c') →
  maps c !! 0%nat = Some l0 →
  l0 ∉ ms →
  chain_get h' ms key' = chain_get h ms key'.
Proof.
  intros (l & rest & Hmaps & -> & _)%update_context_chainmap_inv Hfirst Hout.
  rewrite Hmaps in Hfirst. injection Hfirst as ->.
  apply chain_get_ext. intros l' Hl'.
  rewrite heap_setitem_other; [done|]. by intros ->.
Qed.

(** X3.  Two writes of the same key through the same chain leave every mapping
    as the second write alone would have left it. *)
Theorem update_context_chainmap_last_write_wins
    h (c : ChainMap) key (v1 v2 : V) (i1 i2 : option Z) h1 c1 h2 c2 :
  update_context h (OfChainMap c) key v1 i1 = Ok (h1, c1) →
  update_context h1 c1 key v2 i2 = Ok (h2, c2) →
  ∃ h',
    update_context h (OfChainMap c) key v2 i2 = Ok (h', c2)
    ∧ ∀ l, h2 l = h' l.
Proof.
  intros (l0 & rest & Hmaps & -> & ->)%update_context_chainmap_inv.
  intros (l0' & rest' & Hmaps' & -> & ->)%update_context_chainmap_inv.
  rewrite Hmaps in Hmaps'. injection Hmaps' as <- <-.
  exists (heap_setitem h l0 key v2). split.
  - simpl. by rewrite Hmaps.
  - intros l. unfold heap_setitem.
    destruct (decide (l = l0)) as [->|]; [|done].
    rewrite decide_True by done. apply insert_insert_eq.
Qed.

(** X4.  Writes of two different keys through the same chain commute. *)
Theorem update_context_chainmap_writes_commute
    h (c : ChainMap) (k1 k2 : string) (v1 v2 : V) (i1 i2 : option Z)
    ha ca hab cab hb cb hba cba :
  k1 ≠ k2 →
  update_context h (OfChainMap c) k1 v1 i1 = Ok (ha, ca) →
  update_context ha ca k2 v2 i2 = Ok (hab, cab) →
  update_context h (OfChainMap c) k2 v2 i2 = Ok (hb, cb) →
  update_context hb cb k1 v1 i1 = Ok (hba, cba) →
  cab = cba ∧ ∀ l, hab l = hba l.
Proof.
  intros Hne.
  intros (l0 & rest & Hmaps & -> & ->)%update_context_chainmap_inv.
  intros (la & ra & Ha & -> & ->)%update_context_chainmap_inv.
  intros (lb & rb & Hb & -> & ->)%update_context_chainmap_inv.
  intros (lc & rc & Hc & -> & ->)%update_context_chainmap_inv.
  rewrite Hmaps in Ha, Hb, Hc.
  injection Ha as <- <-. injection Hb as <- <-. injection Hc as <- <-.
  split; [done|]. intros l. unfold heap_setitem.
  destruct (decide (l = l0)) as [->|]; [|done].
  rewrite !decide_True by done. by apply insert_insert_ne.
Qed.

End ChainProperties.

(** * The strings the descriptor patterns match *)

Section PatternCharacterisation.

Import ComponentLoader.

Lemma mentions_append (c : ascii) (s t : string) :
  mentions c (s +:+ t) = mentions c s || mentions c t.
Proof.
  induction s as [|a s IH]; [done|].
  rewrite append_cons. simpl. rewrite IH. by rewrite orb_assoc.
Qed.

Lemma append_assoc (s t u : string) : (s +:+ t) +:+ u = s +:+ t +:+ u.
Proof.
  induction s as [|a s IH]; [done|]. by rewrite !append_cons, IH.
Qed.

(** [(.*?)$] also matches newline-free text that a single newline
    follows, and leaves that newline out of the group. *)
Lemma lazy_dot_to_final_newline (k : string) :
  mentions Re.newline k = false →
  Re.match_here [Re.LazyGroup Re.Dot; Re.Dollar] (k +:+ line_feed) = Some [k].
Proof.
  induction k as [|c k IH].
  - intros _. reflexivity.
  - intros [Hc Hk]%mentions_cons. specialize (IH Hk).
    rewrite append_cons. simpl in *.
    replace (match k +:+ line_feed with
             | "" => bool_decide (c = Re.newline)
             | String _ _ => false
             end) with false
      by (destruct k; reflexivity).
    rewrite bool_decide_false by done. simpl. by rewrite IH.
Qed.

(** [(.*?)$] matches nothing else. *)
Lemma lazy_dot_to_end_inv (t : string) gs :
  Re.match_here [Re.LazyGroup Re.Dot; Re.Dollar] t = Some gs →
  ∃ k, gs = [k] ∧ mentions Re.newline k = false
       ∧ (t = k ∨ t = k +:+ line_feed).
Proof.
  revert gs. induction t as [|c t IH]; intros gs.
  - simpl. intros [= <-]. exists "". auto.
  - simpl.
    destruct (match t with
              | "" => bool_decide (c = Re.newline)
              | String _ _ => false
              end) eqn:Hend.
    + intros [= <-]. exists "". split; [done|]. split; [done|]. right.
      destruct t; [|done]. apply bool_decide_eq_true in Hend as ->. done.
    + case_bool_decide as Hc; simpl; [done|].
      simpl in IH.
      destruct (Re.lazy_star Re.Dot _ t) as [[|g gs']|] eqn:Hrec; [done| |done].
      intros [= <-].
      destruct (IH _ eq_refl) as (k & [= -> ->] & Hk & Ht).
      exists (String c k). split; [done|]. split.
      * apply mentions_cons. done.
      * destruct Ht as [->| ->]; [by left | by right].
Qed.

Lemma lazy_star_cons (a : Re.atom) rest (c : ascii) (s : string) :
  Re.lazy_star a rest (String c s) =
  match rest (String c s) with
  | Some gs => Some ("" :: gs)
  | None =>
      if Re.atom_matches a c then
        match Re.lazy_star a rest s with
        | Some (g :: gs) => Some (String c g :: gs)
        | _ => None
        end
      else None
  end.
Proof. reflexivity. Qed.

(** [(.*?):(.*?)$] only matches text with a colon whose part before the
    first colon and whose part after it are as the groups say. *)
Lemma lazy_dot_colon_to_end_inv (t : string) gs :
  Re.match_here
    [Re.LazyGroup Re.Dot; Re.Atom (Re.Char ":"); Re.LazyGroup Re.Dot; Re.Dollar]
    t = Some gs →
  ∃ old_key new_key,
    gs = [old_key; new_key]
    ∧ mentions ":" old_key = false
    ∧ mentions Re.newline old_key = false
    ∧ mentions Re.newline new_key = false
    ∧ (t = old_key +:+ ":" +:+ new_key
       ∨ t = old_key +:+ ":" +:+ new_key +:+ line_feed).
Proof.
  set (to_end := [Re.LazyGroup Re.Dot; Re.Dollar]).
  set (colon := Re.Atom (Re.Char ":") :: to_end).
  revert gs. induction t as [|c t IH]; intros gs; [done|].
  change (Re.match_here (Re.LazyGroup Re.Dot :: colon) (String c t))
    with (Re.lazy_star Re.Dot (Re.match_here colon) (String c t)).
  rewrite lazy_star_cons.
  change (Re.lazy_star Re.Dot (Re.match_here colon) t)
    with (Re.match_here (Re.LazyGroup Re.Dot :: colon) t).
  change (Re.match_here colon (String c t))
    with (if bool_decide (c = ":"%char) then Re.match_here to_end t else None).
  change (Re.atom_matches Re.Dot c) with (negb (bool_decide (c = Re.newline))).
  destruct (bool_decide (c = ":"%char)) eqn:Hcolon.
  - apply bool_decide_eq_true in Hcolon as ->.
    destruct (Re.match_here to_end t) as [gs0|] eqn:Htail.
    + intros [= <-].
      destruct (lazy_dot_to_end_inv _ _ Htail) as (k & -> & Hk & Ht).
      exists "", k. repeat split; [done..|].
      destruct Ht as [->| ->]; [by left | by right].
    + (* the rest fails after this colon: it fails after every later one *)
      destruct (Re.match_here (Re.LazyGroup Re.Dot :: colon) t)
        as [gs1|] eqn:Hrec; [|by destruct (negb _)].
      intros _. exfalso.
      destruct (IH _ eq_refl) as (o & n & _ & _ & Ho & Hn & Ht).
      assert (Hnl : mentions Re.newline (o +:+ ":" +:+ n) = false).
      { rewrite !mentions_append, Ho, Hn. reflexivity. }
      destruct Ht as [->| ->].
      * unfold to_end in Htail. by rewrite lazy_dot_to_end in Htail.
      * rewrite <- !append_assoc in Htail. unfold to_end in Htail.
        rewrite lazy_dot_to_final_newline in Htail; [done|].
        by rewrite append_assoc.
  - apply bool_decide_eq_false in Hcolon.
    case_bool_decide as Hnl; cbn [negb]; [done|].
    destruct (Re.match_here (Re.LazyGroup Re.Dot :: colon) t)
      as [[|g gs']|] eqn:Hrec; [done| |done].
    intros [= <-].
    destruct (IH _ eq_refl) as (o & n & [= -> ->] & Hoc & Ho & Hn & Ht).
    exists (String c o), n. split; [done|].
    split; [by apply mentions_cons|]. split; [by apply mentions_cons|].
    split; [done|].
    destruct Ht as [->| ->]; [by left | by right].
Qed.

(** A pattern that starts with a literal matches a string only behind that
    literal. *)
Lemma match_here_literal_inv (pre : string) (p : Re.pattern) (s : string) gs :
  Re.match_here (Re.literal pre ++ p) s = Some gs →
  ∃ s', s = pre +:+ s' ∧ Re.match_here p s' = Some gs.
Proof.
  revert s. induction pre as [|a pre IH]; intros s; [by exists s|].
  destruct s as [|c s]; simpl; [done|].
  case_bool_decide as Hc; [|done]. subst c.
  intros (s' & -> & Hs')%IH. by exists s'.
Qed.

Lemma rename_pattern_match_newline (old_key new_key : string) :
  mentions ":" old_key = false →
  mentions Re.newline old_key = false →
  mentions Re.newline new_key = false →
  Re.re_match rename_pattern
    ("rename:" +:+ old_key +:+ ":" +:+ new_key +:+ line_feed)
  = Some [old_key; new_key].
Proof.
  intros Hcolon Hnl1 Hnl2. unfold Re.re_match, rename_pattern.
  rewrite match_here_literal.
  apply lazy_dot_to_first_colon; [done..|].
  by apply lazy_dot_to_final_newline.
Qed.

Lemma delete_pattern_match_newline (key : string) :
  mentions Re.newline key = false →
  Re.re_match delete_pattern ("delete:" +:+ key +:+ line_feed) = Some [key].
Proof.
  intros Hnl. unfold Re.re_match, delete_pattern.
  rewrite match_here_literal. by apply lazy_dot_to_final_newline.
Qed.

(** X14.  [re.match(r"rename:(.*?):(.*?)$", s)] succeeds with groups [old_key]
    and [new_key] exactly when [s] is [rename:], [old_key], a colon and
    [new_key], possibly followed by one newline, where [old_key] has no
    colon and neither key has a newline. *)
Theorem rename_pattern_matches_iff (s old_key new_key : string) :
  Re.re_match rename_pattern s = Some [old_key; new_key]
  ↔ mentions ":" old_key = false
    ∧ mentions Re.newline old_key = false
    ∧ mentions Re.newline new_key = false
    ∧ (s = "rename:" +:+ old_key +:+ ":" +:+ new_key
       ∨ s = "rename:" +:+ old_key +:+ ":" +:+ new_key +:+ line_feed).
Proof.
  unfold Re.re_match, rename_pattern. split.
  - intros (s' & -> & Hs')%match_here_literal_inv.
    destruct (lazy_dot_colon_to_end_inv _ _ Hs')
      as (o & n & [= -> ->] & Hoc & Ho & Hn & Ht).
    repeat split; [done..|].
    destruct Ht as [->| ->]; [by left | by right].
  - intros (Hoc & Ho & Hn & [->| ->]); rewrite match_here_literal.
    + apply lazy_dot_to_first_colon; [done..|]. by apply lazy_dot_to_end.
    + apply lazy_dot_to_first_colon; [done..|].
      by apply lazy_dot_to_final_newline.
Qed.

(** The rename pattern never yields another number of groups. *)
Lemma rename_pattern_two_groups (s : string) gs :
  Re.re_match rename_pattern s = Some gs →
  ∃ old_key new_key, gs = [old_key; new_key].
Proof.
  unfold Re.re_match, rename_pattern.
  intros (s' & -> & Hs')%match_here_literal_inv.
  destruct (lazy_dot_colon_to_end_inv _ _ Hs') as (o & n & -> & _).
  by exists o, n.
Qed.

(** X15.  [re.match(r"delete:(.*?)$", s)] succeeds with group [key] exactly when
    [s] is [delete:] and [key], possibly followed by one newline, where
    [key] has no newline; colons are part of the key. *)
Theorem delete_pattern_matches_iff (s key : string) :
  Re.re_match delete_pattern s = Some [key]
  ↔ mentions Re.newline key = false
    ∧ (s = "delete:" +:+ key ∨ s = "delete:" +:+ key +:+ line_feed).
Proof.
  unfold Re.re_match, delete_pattern. split.
  - intros (s' & -> & Hs')%match_here_literal_inv.
    destruct (lazy_dot_to_end_inv _ _ Hs') as (k & [= ->] & Hk & Ht).
    split; [done|]. destruct Ht as [->| ->]; [by left | by right].
  - intros (Hk & [->| ->]); rewrite match_here_literal.
    + by apply lazy_dot_to_end.
    + by apply lazy_dot_to_final_newline.
Qed.

Lemma delete_pattern_one_group (s : string) gs :
  Re.re_match delete_pattern s = Some gs → ∃ key, gs = [key].
Proof.
  unfold Re.re_match, delete_pattern.
  intros (s' & -> & Hs')%match_here_literal_inv.
  destruct (lazy_dot_to_end_inv _ _ Hs') as (k & -> & _). by exists k.
Qed.

End PatternCharacterisation.

(** * Further properties of resolution *)

Section ResolutionProperties.

Import ComponentLoader.

Context {Path : Type} `{Path_countable : Countable Path} `{!Pathlib Path}.
Variable w : World Path.
Implicit Types (reg : Registry Path) (out : list string) (c : PyClass).

(** ** More about the search loop *)

Section MoreLoop.

Context {A : Type}.
Variable f : A → M (option PyClass).

Lemma first_not_None_app pre xs out out1 :
  first_not_None f pre out = (Ok None, out1) →
  first_not_None f (pre ++ xs) out = first_not_None f xs out1.
Proof.
  revert out. induction pre as [|x pre IH]; intros out.
  - by intros [= <-].
  - simpl. unfold mbind, M_bind, bind.
    destruct (f x out) as [[[c|]|e] out0]; [done| |done].
    apply IH.
Qed.

(** When no source takes back what was printed, neither does the loop. *)
Lemma first_not_None_keeps_output xs out r out' :
  (∀ x o r' o', f x o = (r', o') → o `prefix_of` o') →
  first_not_None f xs out = (r, out') →
  out `prefix_of` out'.
Proof.
  intros Hkeeps. revert out. induction xs as [|x xs IH]; intros out.
  - by intros [= <- <-].
  - simpl. unfold mbind, M_bind, bind.
    destruct (f x out) as [r0 out0] eqn:Hx.
    apply Hkeeps in Hx.
    destruct r0 as [[c|]|e]; [by intros [= <- <-] | | by intros [= <- <-]].
    intros Hrest%IH. by etrans.
Qed.

(** A line that a source prints whenever it finds nothing has been printed
    once the loop has passed over every source. *)
Lemma first_not_None_line_stays xs out out' x0 line :
  (∀ x o r' o', f x o = (r', o') → o `prefix_of` o') →
  (∀ o o', f x0 o = (Ok None, o') → line ∈ o') →
  x0 ∈ xs →
  first_not_None f xs out = (Ok None, out') →
  line ∈ out'.
Proof.
  intros Hkeeps Hline. revert out. induction xs as [|x xs IH]; intros out Hin.
  - by apply elem_of_nil in Hin.
  - simpl. unfold mbind, M_bind, bind.
    destruct (f x out) as [[[c|]|e] out0] eqn:Hx; [done| |done].
    intros Hrest. apply elem_of_cons in Hin as [->|Hin].
    + apply Hline in Hx.
      apply (first_not_None_keeps_output _ _ _ _ Hkeeps) in Hrest
        as [more ->].
      by apply elem_of_app; left.
    + by apply (IH out0).
Qed.

End MoreLoop.

(** ** What a file lookup can do *)

Lemma from_file_outcomes file_path class_name out r out' :
  _get_class_from_file w file_path class_name out = (r, out') →
  (out' = out ∧ r = Ok None)
  ∨ ∃ module_spec ld,
      is_file w file_path = true
      ∧ spec_from_file_location w (stem file_path) file_path = Some module_spec
      ∧ loader module_spec = Some ld
      ∧ ((∃ module, exec_module ld = Ok module
                    ∧ r = Ok (getattr_or_None module class_name)
                    ∧ out' = out)
         ∨ (∃ e, exec_module ld = Raise e
                 ∧ isinstance e Exception = true
                 ∧ r = Ok None
                 ∧ out' = out ++ [load_error_line (stem file_path) e])
         ∨ (∃ e, exec_module ld = Raise e
                 ∧ isinstance e Exception = false
                 ∧ r = Raise e
                 ∧ out' = out)).
Proof.
  rewrite from_file_cases.
  destruct (is_file w file_path) eqn:Hfile; simpl;
    [|intros [= <- <-]; by left].
  destruct (spec_from_file_location w (stem file_path) file_path)
    as [module_spec|] eqn:Hspec; [|intros [= <- <-]; by left].
  destruct (loader module_spec) as [ld|] eqn:Hld; [|intros [= <- <-]; by left].
  intros Hres. right. exists module_spec, ld. repeat split; [done|].
  destruct (exec_module ld) as [module|e]; [|destruct (isinstance e Exception) eqn:He];
    injection Hres as <- <-.
  - left. by exists module.
  - right. left. by exists e.
  - right. right. by exists e.
Qed.

Lemma from_module_outcomes module_name class_name out r out' :
  _get_class_from_module w module_name class_name out = (r, out') →
  out' = out
  ∧ ((∃ module, import_module w module_name = Ok module
                ∧ r = Ok (getattr_or_None module class_name))
     ∨ (∃ e, import_module w module_name = Raise e
             ∧ isinstance e ModuleNotFoundError = true ∧ r = Ok None)
     ∨ (∃ e, import_module w module_name = Raise e
             ∧ isinstance e ModuleNotFoundError = false ∧ r = Raise e)).
Proof.
  rewrite from_module_cases.
  destruct (import_module w module_name) as [module|e];
    [|destruct (isinstance e ModuleNotFoundError) eqn:He];
    intros [= <- <-]; (split; [done|]).
  - left. by exists module.
  - right. left. by exists e.
  - right. right. by exists e.
Qed.

(** ** Paths *)

(** X5.  When no registered namespace offers the name, the first registered
    path, in the order the set hands them out, whose file defines the name
    decides the result; what the files before it printed stays printed. *)
Theorem get_class_first_path_match
    reg class_name out pre p post out1 out2 c :
  (∀ m, m ∈ _registered_modules reg →
        _get_class_from_module w m class_name out = (Ok None, out)) →
  iterate (paths_order w) (_registered_paths reg) = pre ++ p :: post →
  first_not_None (fun q => _get_class_from_file w q class_name) pre out
    = (Ok None, out1) →
  _get_class_from_file w p class_name out1 = (Ok (Some c), out2) →
  get_class w reg class_name out = (Ok c, out2).
Proof.
  intros Hmods Hpaths Hpre Hp.
  rewrite get_class_cases.
  rewrite <- (app_nil_r (iterate (modules_order w) _)).
  rewrite first_not_None_pass.
  2:{ intros m Hm. apply Hmods. by apply elem_of_iterate in Hm. }
  simpl first_not_None at 1. unfold ret at 1.
  rewrite Hpaths, (first_not_None_app _ pre (p :: post) out out1 Hpre).
  by rewrite (first_not_None_hit _ p post out1 out2 c Hp).
Qed.

(** ** What is printed *)

(** A file lookup leaves what was printed in front of what it prints. *)
Lemma from_file_keeps_output file_path class_name out r out' :
  _get_class_from_file w file_path class_name out = (r, out') →
  out `prefix_of` out'.
Proof.
  intros [[-> _]|(ms & ld & _ & _ & _ &
                  [(? & _ & _ & ->)|
                   [(? & _ & _ & _ & ->)|(? & _ & _ & _ & ->)]])]
         %from_file_outcomes; try done.
  by apply prefix_app_r.
Qed.

(** X6.  When every registered namespace and every registered path finds
    nothing, [get_class] raises its not-found error with everything that
    was printed before still in front, and the error line of every
    registered file whose execution raised is in the output: no broken
    file goes unreported. *)
Theorem get_class_reports_broken_files reg class_name out :
  (∀ m, m ∈ _registered_modules reg →
        _get_class_from_module w m class_name out = (Ok None, out)) →
  (∀ p o, p ∈ _registered_paths reg →
          ∃ o', _get_class_from_file w p class_name o = (Ok None, o')) →
  ∃ out',
    get_class w reg class_name out
    = (Raise (mkExc ValueError (not_found_message class_name)), out')
    ∧ out `prefix_of` out'
    ∧ ∀ p module_spec ld e,
        p ∈ _registered_paths reg →
        is_file w p = true →
        spec_from_file_location w (stem p) p = Some module_spec →
        loader module_spec = Some ld →
        exec_module ld = Raise e →
        load_error_line (stem p) e ∈ out'.
Proof.
  intros Hmods Hpaths. rewrite get_class_cases.
  rewrite <- (app_nil_r (iterate (modules_order w) _)).
  rewrite first_not_None_pass.
  2:{ intros m Hm. apply Hmods. by apply elem_of_iterate in Hm. }
  simpl first_not_None at 1. unfold ret at 1.
  set (from_file := fun p => _get_class_from_file w p class_name).
  assert (Hkeeps : ∀ x o r' o', from_file x o = (r', o') → o `prefix_of` o').
  { intros x o r' o'. apply from_file_keeps_output. }
  destruct (first_not_None_exhaust from_file
              (iterate (paths_order w) (_registered_paths reg))) with (out := out)
    as [out' Hloop].
  { intros p o Hp. apply Hpaths. by apply elem_of_iterate in Hp. }
  rewrite Hloop. exists out'. split; [done|]. split.
  - by apply (first_not_None_keeps_output from_file _ _ _ _ Hkeeps Hloop).
  - intros p module_spec ld e Hp Hfile Hspec Hld Hexec.
    apply (first_not_None_line_stays from_file
             (iterate (paths_order w) (_registered_paths reg)) out out' p);
      [done| | |done].
    + intros o o'. unfold from_file.
      rewrite from_file_cases, Hfile, Hspec, Hld, Hexec. simpl.
      destruct (isinstance e Exception); [|done].
      intros [= <-]. apply elem_of_app. right. by apply list_elem_of_singleton.
    + by apply elem_of_iterate.
Qed.

(** ** Where results and exceptions come from *)

(** X7.  A class that [get_class] returns is the attribute that a registered
    namespace, once imported, or a registered file, once executed, has
    under the requested name. *)
Theorem get_class_result_origin reg class_name out c out' :
  get_class w reg class_name out = (Ok c, out') →
  (∃ m module,
     m ∈ _registered_modules reg
     ∧ import_module w m = Ok module
     ∧ getattr_or_None module class_name = Some c)
  ∨ (∃ p module_spec ld module,
       p ∈ _registered_paths reg
       ∧ is_file w p = true
       ∧ spec_from_file_location w (stem p) p = Some module_spec
       ∧ loader module_spec = Some ld
       ∧ exec_module ld = Ok module
       ∧ getattr_or_None module class_name = Some c).
Proof.
  rewrite get_class_cases.
  destruct (first_not_None _ _ out) as [[[c1|]|e] out1] eqn:Hmods; [| |done].
  - intros [= <- <-]. left.
    apply first_not_None_found in Hmods as (m & o & Hm & Hf).
    apply from_module_outcomes in Hf
      as [_ [(module & Himp & [= Hattr])|[(? & _ & _ & [=])|(? & _ & _ & [=])]]].
    exists m, module. split; [by apply elem_of_iterate in Hm | done].
  - destruct (first_not_None (fun p => _get_class_from_file w p class_name)
                _ out1) as [[[c2|]|e] out2] eqn:Hpaths; [|done..].
    intros [= <- <-]. right.
    apply first_not_None_found in Hpaths as (p & o & Hp & Hf).
    apply from_file_outcomes in Hf
      as [[_ [=]]|(ms & ld & Hfile & Hspec & Hld &
                   [(module & Hexec & [= Hattr] & _)|
                    [(? & _ & _ & [=] & _)|(? & _ & _ & [=] & _)]])].
    exists p, ms, ld, module.
    split; [by apply elem_of_iterate in Hp | done].
Qed.

(** ** Iteration order *)

(** X10.  When two registered namespaces offer the same name, which class
    [get_class] returns is decided by the order in which the set of
    namespaces is visited: there is an order that gives the one class and
    an order that gives the other. *)
Theorem get_class_depends_on_iteration_order
    (paths : gset Path) (m1 m2 : string) c1 c2 class_name out :
  m1 ≠ m2 →
  _get_class_from_module w m1 class_name out = (Ok (Some c1), out) →
  _get_class_from_module w m2 class_name out = (Ok (Some c2), out) →
  ∃ order1 order2 : SetIteration string,
    get_class (with_modules_order w order1)
      (mkRegistry paths {[m1; m2]}) class_name out = (Ok c1, out)
    ∧ get_class (with_modules_order w order2)
        (mkRegistry paths {[m1; m2]}) class_name out = (Ok c2, out).
Proof.
  intros Hne H1 H2.
  assert (Hhead : ∀ (order : SetIteration string) m rest c,
            iterate order ({[m1; m2]} : gset string) = m :: rest →
            _get_class_from_module w m class_name out = (Ok (Some c), out) →
            get_class (with_modules_order w order)
              (mkRegistry paths {[m1; m2]}) class_name out = (Ok c, out)).
  { intros order m rest c Horder Hm.
    rewrite get_class_cases. simpl. rewrite Horder.
    by rewrite (first_not_None_hit _ m rest out out c Hm). }
  assert (Hperm : elements ({[m1; m2]} : gset string) ≡ₚ [m1; m2]).
  { rewrite elements_disj_union by set_solver.
    by rewrite !elements_singleton. }
  apply Permutation_sym, Permutation_length_2_inv in Hperm as [Hel|Hel].
  - exists (elements_order string), (reversed_order string). split.
    + by apply (Hhead _ m1 [m2]).
    + apply (Hhead _ m2 [m1]); [|done]. simpl. by rewrite Hel.
  - exists (reversed_order string), (elements_order string). split.
    + apply (Hhead _ m1 [m2]); [|done]. simpl. by rewrite Hel.
    + by apply (Hhead _ m2 [m1]).
Qed.

(** ** [get_context_operation] *)

(** The special operations print nothing; they give the rename operation
    of the two groups, the delete operation of the group, or the
    unknown-operation error. *)
Lemma special_operation_outcomes class_name out r out' :
  special_operation class_name out = (r, out') →
  out' = out
  ∧ (r = Raise (mkExc ValueError (unknown_operation_message class_name))
     ∨ (∃ old_key new_key,
          Re.re_match rename_pattern class_name = Some [old_key; new_key]
          ∧ r = Ok (RenameOperation old_key new_key))
     ∨ (∃ key,
          Re.re_match delete_pattern class_name = Some [key]
          ∧ r = Ok (DeleteOperation key))).
Proof.
  unfold special_operation.
  destruct (startswith class_name "rename:").
  - destruct (Re.re_match rename_pattern class_name) as [gs|] eqn:Hmatch.
    + destruct (rename_pattern_two_groups _ _ Hmatch) as (o & n & ->).
      intros [= <- <-]. split; [done|]. right. left. by exists o, n.
    + intros [= <- <-]. split; [done|]. by left.
  - destruct (startswith class_name "delete:").
    + destruct (Re.re_match delete_pattern class_name) as [gs|] eqn:Hmatch.
      * destruct (delete_pattern_one_group _ _ Hmatch) as (k & ->).
        intros [= <- <-]. split; [done|]. right. right. by exists k.
      * intros [= <- <-]. split; [done|]. by left.
    + intros [= <- <-]. split; [done|]. by left.
Qed.

(** X12.  The only [ValueError] that [get_context_operation] raises is its own
    unknown-operation error: the registry's not-found error, and any other
    [ValueError] of the registry, never reaches the caller.  Any other
    exception is one that [get_class] raised, with the same output. *)
Theorem get_context_operation_error_kinds reg class_name out e out' :
  get_context_operation w reg class_name out = (Raise e, out') →
  (e = mkExc ValueError (unknown_operation_message class_name)
   ∧ ∃ e0, get_class w reg class_name out = (Raise e0, out')
           ∧ isinstance e0 ValueError = true)
  ∨ (isinstance e ValueError = false
     ∧ get_class w reg class_name out = (Raise e, out')).
Proof.
  rewrite get_context_operation_cases.
  destruct (get_class w reg class_name out) as [[c|e0] out0]; [done|].
  destruct (isinstance e0 ValueError) eqn:Hcls.
  - intros [-> [[= <-]|[(? & ? & _ & [=])|(? & _ & [=])]]]
           %special_operation_outcomes.
    left. split; [done|]. by exists e0.
  - intros [= <- <-]. by right.
Qed.

(** X13.  A class that [get_context_operation] returns is the class that
    [get_class] returned, or else [get_class] raised a [ValueError] and the
    class is the rename operation of the two groups of the rename pattern
    or the delete operation of the group of the delete pattern. *)
Theorem get_context_operation_result_origin reg class_name out c out' :
  get_context_operation w reg class_name out = (Ok c, out') →
  get_class w reg class_name out = (Ok c, out')
  ∨ ((∃ e0, get_class w reg class_name out = (Raise e0, out')
            ∧ isinstance e0 ValueError = true)
     ∧ ((∃ old_key new_key,
           Re.re_match rename_pattern class_name = Some [old_key; new_key]
           ∧ c = rename_context_key old_key new_key)
        ∨ (∃ key,
             Re.re_match delete_pattern class_name = Some [key]
             ∧ c = delete_context_key key))).
Proof.
  rewrite get_context_operation_cases.
  destruct (get_class w reg class_name out) as [[c0|e0] out0].
  - intros [= <- <-]. by left.
  - destruct (isinstance e0 ValueError) eqn:Hcls; [|done].
    intros [-> [[=]|[(o & n & Hm & [= ->])|(k & Hm & [= ->])]]]
           %special_operation_outcomes.
    + right. split; [by exists e0|]. left. by exists o, n.
    + right. split; [by exists e0|]. right. by exists k.
Qed.

(** X16.  One newline at the end of a descriptor is not part of the key: when
    the registry raises a [ValueError] for the descriptor with the newline,
    [rename:old:new] followed by a newline gives the rename operation of
    [old] and [new], and [delete:key] followed by a newline gives the
    delete operation of [key]. *)
Theorem descriptor_final_newline_is_dropped reg out e out' :
  isinstance e ValueError = true →
  (∀ old_key new_key,
     mentions ":" old_key = false →
     mentions Re.newline old_key = false →
     mentions Re.newline new_key = false →
     let d := "rename:" +:+ old_key +:+ ":" +:+ new_key +:+ line_feed in
     get_class w reg d out = (Raise e, out') →
     get_context_operation w reg d out
     = (Ok (RenameOperation old_key new_key), out'))
  ∧ (∀ key,
       mentions Re.newline key = false →
       let d := "delete:" +:+ key +:+ line_feed in
       get_class w reg d out = (Raise e, out') →
       get_context_operation w reg d out = (Ok (DeleteOperation key), out')).
Proof.
  intros Hcls. split.
  - intros old_key new_key Hoc Ho Hn d Hget.
    rewrite get_context_operation_cases, Hget, Hcls.
    unfold special_operation, d. rewrite startswith_append.
    by rewrite (rename_pattern_match_newline _ _ Hoc Ho Hn).
  - intros key Hk d Hget.
    rewrite get_context_operation_cases, Hget, Hcls.
    unfold special_operation, d.
    rewrite (startswith_delete_not_rename _ (startswith_append _ _)).
    rewrite startswith_append.
    by rewrite (delete_pattern_match_newline _ Hk).
Qed.

End ResolutionProperties.

(** * Further properties of registration *)

Section RegistrationComposition.

Import ComponentLoader.

Context {Path : Type} `{Path_countable : Countable Path} `{!Pathlib Path}.
Implicit Types (reg : Registry Path) (x y : StrOrList).

Lemma registry_eq reg reg' :
  _registered_paths reg = _registered_paths reg' →
  _registered_modules reg = _registered_modules reg' →
  reg = reg'.
Proof. destruct reg, reg'. simpl. by intros -> ->. Qed.

(** X17.  After a registration the registered names are the ones given and the
    ones registered before: nothing is removed, a namespace registration
    leaves the paths alone and a path registration leaves the namespaces
    alone. *)
Theorem registered_after_registration x reg :
  (∀ m, m ∈ get_registered_modules (register_modules x reg)
        ↔ m ∈ as_list x ∨ m ∈ get_registered_modules reg)
  ∧ get_registered_paths (register_modules x reg) = get_registered_paths reg
  ∧ (∀ p, p ∈ get_registered_paths (register_paths x reg)
          ↔ (∃ s, s ∈ as_list x ∧ p = PathOf s)
            ∨ p ∈ get_registered_paths reg)
  ∧ get_registered_modules (register_paths x reg)
    = get_registered_modules reg.
Proof.
  unfold get_registered_modules, get_registered_paths.
  rewrite register_modules_union, register_paths_union. simpl.
  repeat split.
  - intros [Hm|Hm]%elem_of_union; [left | by right].
    by apply elem_of_list_to_set in Hm.
  - intros [Hm|Hm]; [apply elem_of_union_l | by apply elem_of_union_r].
    by apply elem_of_list_to_set.
  - intros [Hp|Hp]%elem_of_union; [left | by right].
    apply elem_of_list_to_set, list_elem_of_fmap in Hp as (s & -> & Hs).
    by exists s.
  - intros [(s & Hs & ->)|Hp]; [apply elem_of_union_l | by apply elem_of_union_r].
    apply elem_of_list_to_set, list_elem_of_fmap. by exists s.
Qed.

(** X18.  Registrations can be split and reordered: a list registered at once is
    the same as its parts registered one after the other, and any two
    registrations, of namespaces or of paths, give the same registry in
    either order. *)
Theorem registration_composes reg :
  (∀ l1 l2,
     register_modules (StrList (l1 ++ l2)) reg
     = register_modules (StrList l2) (register_modules (StrList l1) reg))
  ∧ (∀ l1 l2,
       register_paths (StrList (l1 ++ l2)) reg
       = register_paths (StrList l2) (register_paths (StrList l1) reg))
  ∧ (∀ x y,
       register_modules x (register_modules y reg)
       = register_modules y (register_modules x reg))
  ∧ (∀ x y,
       register_paths x (register_paths y reg)
       = register_paths y (register_paths x reg))
  ∧ (∀ x y,
       register_modules x (register_paths y reg)
       = register_paths y (register_modules x reg)).
Proof.
  repeat split.
  - intros l1 l2. unfold register_modules. simpl. apply foldl_app.
  - intros l1 l2. unfold register_paths. simpl. apply foldl_app.
  - intros x y. rewrite !register_modules_union. simpl.
    apply registry_eq; simpl; [done|].
    rewrite !(assoc_L (∪)). f_equal. apply (comm_L (∪)).
  - intros x y. rewrite !register_paths_union. simpl.
    apply registry_eq; simpl; [|done].
    rewrite !(assoc_L (∪)). f_equal. apply (comm_L (∪)).
  - intros x y.
    rewrite !register_modules_union, !register_paths_union. simpl.
    rewrite ?register_modules_union, ?register_paths_union. done.
Qed.

(** X19.  [initialize_default_modules] registers the three default namespaces as
    [register_modules] would, leaves the paths alone, keeps what was
    registered, and changes nothing when it is called again. *)
Theorem initialize_default_modules_registers reg :
  initialize_default_modules reg
  = register_modules
      (StrList ["semantiva.specializations.image.image_algorithms";
                "semantiva.specializations.image.image_probes";
                "semantiva.context_operations.context_operations"]) reg
  ∧ get_registered_paths (initialize_default_modules reg)
    = get_registered_paths reg
  ∧ get_registered_modules reg
    ⊆ get_registered_modules (initialize_default_modules reg)
  ∧ initialize_default_modules (initialize_default_modules reg)
    = initialize_default_modules reg.
Proof.
  split; [reflexivity|]. split; [reflexivity|]. split.
  - unfold get_registered_modules, initialize_default_modules. simpl.
    intros m Hm. do 3 apply elem_of_union_r. done.
  - unfold initialize_default_modules. simpl. f_equal.
    apply set_eq. intros m. rewrite !elem_of_union. tauto.
Qed.

End RegistrationComposition.

(** * Properties of [Logger] *)

Section LoggerProperties.

Import Logger.

Implicit Types (self : Logger) (st : Logging).

Lemma loggers_on_logger_same st l f :
  loggers (on_logger st l f) l = f (loggers st l).
Proof. simpl. by rewrite decide_True. Qed.

Lemma loggers_on_logger_other st l l' f :
  l' ≠ l → loggers (on_logger st l f) l' = loggers st l'.
Proof. intros Hne. simpl. by rewrite decide_False. Qed.

(** Each name of [verbosity_map] is the name [logging] gives its level. *)
Lemma getLevelName_verbosity_map (name : string) (lvl : Z) :
  dict_get verbosity_map name = Some lvl → getLevelName lvl = name.
Proof.
  unfold verbosity_map. simpl.
  repeat (case_bool_decide as Hname; [subst name; by intros [= <-] | clear Hname]).
  done.
Qed.

(** What one [set_verbose_level] call does to the wrapped logger. *)
Lemma set_verbose_level_effect self name st :
  let before := loggers st (logger self) in
  let after := loggers (set_verbose_level self name st) (logger self) in
  level after = default (level before) (dict_get verbosity_map name)
  ∧ handlers after = handlers before
  ∧ (∀ l, l ≠ logger self →
          loggers (set_verbose_level self name st) l = loggers st l)
  ∧ next_handler (set_verbose_level self name st) = next_handler st.
Proof.
  unfold set_verbose_level.
  destruct (dict_get verbosity_map name) as [lvl|]; simpl;
    rewrite ?decide_True by done; simpl; repeat split;
    intros l Hne; by rewrite ?decide_False.
Qed.

(** X20.  After any number of [set_verbose_level] calls the level of the wrapped
    logger is the level of the last name that [verbosity_map] knows, and
    the level it had before when no name was known; the handlers are as
    before, and so is every other logger. *)
Theorem last_known_verbosity_level_wins self (names : list string) st :
  let st' := set_verbose_levels self names st in
  level (loggers st' (logger self))
  = default (level (loggers st (logger self)))
            (last (omap (dict_get verbosity_map) names))
  ∧ handlers (loggers st' (logger self)) = handlers (loggers st (logger self))
  ∧ (∀ l, l ≠ logger self → loggers st' l = loggers st l).
Proof.
  unfold set_verbose_levels.
  induction names as [|name names IH] using rev_ind; [done|].
  rewrite foldl_app. cbn [foldl].
  destruct IH as (IHlevel & IHhandlers & IHothers).
  destruct (set_verbose_level_effect self name
              (foldl (fun st' n => set_verbose_level self n st') st names))
    as (Hlevel & Hhandlers & Hothers & _).
  cbv zeta in Hlevel, Hhandlers.
  split; [|split].
  - rewrite Hlevel, IHlevel, omap_app.
    change (omap (dict_get verbosity_map) [name])
      with (match dict_get verbosity_map name with
            | Some lvl => [lvl]
            | None => []
            end).
    destruct (dict_get verbosity_map name) as [lvl|].
    + by rewrite last_snoc.
    + by rewrite app_nil_r.
  - by rewrite Hhandlers.
  - intros l Hne. rewrite Hothers by done. by apply IHothers.
Qed.

(** X21.  When two known levels are set one after the other, the second call
    reports the change from the name given in the first call to the name
    given in the second. *)
Theorem verbosity_change_names_previous_level
    self (first second : string) (l1 l2 : Z) st :
  dict_get verbosity_map first = Some l1 →
  dict_get verbosity_map second = Some l2 →
  last (calls (loggers (set_verbose_level self second
                          (set_verbose_level self first st)) (logger self)))
  = Some (mkLogCall INFO "Logger verbosity level changed from %s to %s."
            [ArgStr first; ArgStr second]).
Proof.
  intros H1 H2.
  destruct (set_verbose_level_effect self first st) as (Hlevel & _).
  cbv zeta in Hlevel. rewrite H1 in Hlevel. simpl in Hlevel.
  unfold set_verbose_level at 1. rewrite H2.
  rewrite loggers_on_logger_same. simpl. rewrite last_snoc.
  by rewrite Hlevel, (getLevelName_verbosity_map first l1 H1).
Qed.

(** What one [set_console_output] call does when every handler in use was
    created before. *)
Lemma set_console_output_effect self st :
  handlers_known st →
  let st' := set_console_output self st in
  handlers (loggers st' (logger self))
  = handlers (loggers st (logger self))
    ++ [mkHandler (next_handler st) (StreamHandler Stdout) (Some formatter)]
  ∧ level (loggers st' (logger self)) = level (loggers st (logger self))
  ∧ next_handler st' = S (next_handler st)
  ∧ handlers_known st'.
Proof.
  intros Hknown. simpl. rewrite decide_True by done.
  unfold addHandler. simpl. rewrite bool_decide_false.
  2:{ intros (h & Hid & Hh)%list_elem_of_fmap.
      apply Hknown in Hh. lia. }
  simpl. repeat split.
  intros l h. simpl. destruct (decide (l = logger self)) as [->|].
  - unfold addHandler. simpl. rewrite bool_decide_false.
    2:{ intros (h' & Hid & Hh')%list_elem_of_fmap.
        apply Hknown in Hh'. lia. }
    simpl. intros [Hh| ->%list_elem_of_singleton]%elem_of_app.
    + apply Hknown in Hh. lia.
    + simpl. lia.
  - intros Hh. apply Hknown in Hh. lia.
Qed.

(** X22.  [set_console_output] is not idempotent: called [n] times, it leaves
    [n] more stream handlers for standard output on the wrapped logger,
    behind the handlers that were there, and the level as it was. *)
Theorem set_console_output_adds_a_handler_each_time self (n : nat) st :
  handlers_known st →
  let st' := Nat.iter n (set_console_output self) st in
  handlers (loggers st' (logger self))
  = handlers (loggers st (logger self))
    ++ ((fun i => mkHandler (next_handler st + i) (StreamHandler Stdout)
                    (Some formatter)) <$> seq 0 n)
  ∧ level (loggers st' (logger self)) = level (loggers st (logger self))
  ∧ handlers_known st'.
Proof.
  intros Hknown.
  assert (Hiter : let st' := Nat.iter n (set_console_output self) st in
            handlers (loggers st' (logger self))
            = handlers (loggers st (logger self))
              ++ ((fun i => mkHandler (next_handler st + i)
                              (StreamHandler Stdout) (Some formatter))
                    <$> seq 0 n)
            ∧ level (loggers st' (logger self))
              = level (loggers st (logger self))
            ∧ next_handler st' = (next_handler st + n)%nat
            ∧ handlers_known st').
  { induction n as [|n IH].
    - simpl. rewrite app_nil_r. repeat split; [lia | done].
    - destruct IH as (IHh & IHl & IHn & IHk).
      destruct (set_console_output_effect self _ IHk) as (Hh & Hl & Hn & Hk).
      cbv zeta. rewrite Nat.iter_succ.
      split; [|split; [|split]].
      + rewrite Hh, IHh, IHn, seq_S, fmap_app, <- app_assoc. done.
      + by rewrite Hl.
      + rewrite Hn, IHn. lia.
      + done. }
  destruct Hiter as (Hh & Hl & _ & Hk). done.
Qed.

(** X23.  [set_file_output] adds one file handler behind the handlers that were
    there when the file can be opened; when opening raises an instance of
    [Exception] it adds none and reports the exception in one error call;
    it raises what is outside [Exception] and then changes nothing.  In no
    case does it remove a handler or change the level. *)
Theorem set_file_output_outcomes
    (open_file : string → Result unit) self (file_path : string) st :
  handlers_known st →
  let before := loggers st (logger self) in
  (∀ u, open_file file_path = Ok u →
     ∃ st', set_file_output open_file self file_path st = (Ok tt, st')
            ∧ handlers (loggers st' (logger self))
              = handlers before
                ++ [mkHandler (next_handler st) (FileHandler file_path)
                      (Some formatter)]
            ∧ calls (loggers st' (logger self)) = calls before)
  ∧ (∀ e, open_file file_path = Raise e →
          isinstance e Exception = true →
     ∃ st', set_file_output open_file self file_path st = (Ok tt, st')
            ∧ handlers (loggers st' (logger self)) = handlers before
            ∧ calls (loggers st' (logger self))
              = calls before
                ++ [mkLogCall ERROR "Failed to set file output: %s"
                      [ArgExc e]])
  ∧ (∀ e, open_file file_path = Raise e →
          isinstance e Exception = false →
          set_file_output open_file self file_path st = (Raise e, st))
  ∧ (∀ r st', set_file_output open_file self file_path st = (r, st') →
              level (loggers st' (logger self)) = level before
              ∧ handlers before `prefix_of` handlers (loggers st' (logger self))).
Proof.
  intros Hknown before.
  assert (Hfresh : bool_decide
            (next_handler st ∈ handler_id <$> handlers before) = false).
  { apply bool_decide_eq_false.
    intros (h & Hid & Hh)%list_elem_of_fmap. apply Hknown in Hh. lia. }
  unfold set_file_output. split; [|split; [|split]].
  - intros u ->. eexists. split; [done|].
    rewrite loggers_on_logger_same. unfold addHandler. simpl.
    fold before. by rewrite Hfresh.
  - intros e -> ->. eexists. split; [done|].
    by rewrite loggers_on_logger_same.
  - by intros e -> ->.
  - intros r st'.
    destruct (open_file file_path) as [u|e];
      [|destruct (isinstance e Exception)]; intros [= <- <-].
    + rewrite loggers_on_logger_same. unfold addHandler. simpl.
      fold before. rewrite Hfresh. simpl. split; [done|].
      by apply prefix_app_r.
    + rewrite loggers_on_logger_same. done.
    + done.
Qed.

End LoggerProperties.

(** * When the iteration order does not matter *)

Section ResolutionDeterminism.

Import ComponentLoader.

Context {Path : Type} `{Path_countable : Countable Path} `{!Pathlib Path}.
Variable w : World Path.

(** A loop over sources that all answer without printing answers without
    printing. *)
Lemma first_not_None_total {A} (f : A → M (option PyClass)) xs out :
  (∀ x, x ∈ xs → ∃ r, f x out = (Ok r, out)) →
  ∃ r, first_not_None f xs out = (Ok r, out).
Proof.
  induction xs as [|x xs IH]; intros Hok; [by exists None|].
  destruct (Hok x) as [[c|] Hx]; [by left | |].
  - exists (Some c). by apply first_not_None_hit.
  - rewrite (first_not_None_skip f x xs out out Hx).
    apply IH. intros y Hy. apply Hok. by right.
Qed.

(** X11.  When every registered namespace can be looked up and no two of them
    offer different classes under the name, [get_class] gives the same
    outcome in whatever order the namespaces are visited. *)
Theorem get_class_order_independent_when_unique
    (reg : Registry Path) class_name out (order1 order2 : SetIteration string) :
  (∀ m, m ∈ _registered_modules reg →
        ∃ r, _get_class_from_module w m class_name out = (Ok r, out)) →
  (∀ m m' c c',
     m ∈ _registered_modules reg → m' ∈ _registered_modules reg →
     _get_class_from_module w m class_name out = (Ok (Some c), out) →
     _get_class_from_module w m' class_name out = (Ok (Some c'), out) →
     c = c') →
  get_class (with_modules_order w order1) reg class_name out
  = get_class (with_modules_order w order2) reg class_name out.
Proof.
  intros Hok Hunique.
  set (from_module := fun m => _get_class_from_module w m class_name).
  assert (Hsilent : ∀ x o r' o', from_module x o = (r', o') → o' = o).
  { intros x o r' o'. apply from_module_silent. }
  assert (Hloop : ∀ order : SetIteration string,
            ∃ r, first_not_None from_module
                   (iterate order (_registered_modules reg)) out = (Ok r, out)).
  { intros order. apply first_not_None_total.
    intros m Hm. apply Hok. by apply elem_of_iterate in Hm. }
  rewrite !get_class_cases.
  change (fun m => _get_class_from_module (with_modules_order w order1)
                     m class_name) with from_module.
  change (fun m => _get_class_from_module (with_modules_order w order2)
                     m class_name) with from_module.
  change (modules_order (with_modules_order w order1)) with order1.
  change (modules_order (with_modules_order w order2)) with order2.
  destruct (Hloop order1) as [r1 H1]. destruct (Hloop order2) as [r2 H2].
  rewrite H1, H2.
  destruct (first_not_None_silent from_module _ _ _ _ Hsilent H1) as [_ Hr1].
  destruct (first_not_None_silent from_module _ _ _ _ Hsilent H2) as [_ Hr2].
  destruct r1 as [c1|], r2 as [c2|].
  - destruct Hr1 as (m1 & Hm1 & Hf1). destruct Hr2 as (m2 & Hm2 & Hf2).
    apply elem_of_iterate in Hm1, Hm2.
    by rewrite (Hunique m1 m2 c1 c2 Hm1 Hm2 Hf1 Hf2).
  - destruct Hr1 as (m1 & Hm1 & Hf1).
    apply elem_of_iterate in Hm1.
    rewrite Hr2 in Hf1 by by apply elem_of_iterate. done.
  - destruct Hr2 as (m2 & Hm2 & Hf2).
    apply elem_of_iterate in Hm2.
    rewrite Hr1 in Hf2 by by apply elem_of_iterate. done.
  - reflexivity.
Qed.

End ResolutionDeterminism.

(** * The further properties at work *)

Section MoreInstances.

Import ContextObserver ComponentLoader Sample Logger.

(** A child mapping over a parent mapping that holds [mode]. *)
Lemma update_context_chainmap_keeps_other_keys_witness :
  let h : Heap Z := fun l => if decide (l = 1%nat) then {["mode" := 7]} else ∅ in
  chain_get (heap_setitem h 0%nat "k" 2) [0%nat; 1%nat] "mode"
  = chain_get h [0%nat; 1%nat] "mode".
Proof.
  intros h.
  apply (update_context_chainmap_keeps_other_keys
           h (mkChainMap [0%nat; 1%nat]) "k" 2 None _
           (OfChainMap (mkChainMap [0%nat; 1%nat])) [0%nat; 1%nat] "mode"
           eq_refl).
  discriminate.
Defined.

(** Two branches over one parent: a write through the first is not seen
    through the second. *)
Lemma update_context_chainmap_isolates_other_chains_witness :
  let h : Heap Z := fun _ => ∅ in
  chain_get (heap_setitem h 0%nat "k" 2) [1%nat; 2%nat] "k"
  = chain_get h [1%nat; 2%nat] "k".
Proof.
  intros h.
  apply (update_context_chainmap_isolates_other_chains
           h (mkChainMap [0%nat; 2%nat]) "k" 2 None _
           (OfChainMap (mkChainMap [0%nat; 2%nat])) 0%nat [1%nat; 2%nat] "k"
           eq_refl eq_refl).
  rewrite !not_elem_of_cons. repeat split; [lia | lia | apply not_elem_of_nil].
Defined.

Lemma update_context_chainmap_last_write_wins_witness :
  let h : Heap Z := fun _ => ∅ in
  let chain := mkChainMap [0%nat; 1%nat] in
  ∃ h',
    update_context h (OfChainMap chain) "k" 2 None = Ok (h', OfChainMap chain)
    ∧ ∀ l, heap_setitem (heap_setitem h 0%nat "k" 1) 0%nat "k" 2 l = h' l.
Proof.
  intros h chain.
  apply (update_context_chainmap_last_write_wins
           h chain "k" 1 2 None None _ _ _ _ eq_refl eq_refl).
Defined.

Lemma update_context_chainmap_writes_commute_witness :
  let h : Heap Z := fun _ => ∅ in
  let chain := mkChainMap [0%nat; 1%nat] in
  (OfChainMap chain : AnyContext Z) = OfChainMap chain
  ∧ ∀ l, heap_setitem (heap_setitem h 0%nat "a" 1) 0%nat "b" 2 l
         = heap_setitem (heap_setitem h 0%nat "b" 2) 0%nat "a" 1 l.
Proof.
  intros h chain.
  apply (update_context_chainmap_writes_commute
           h chain "a" "b" 1 2 None None _ _ _ _ _ _ _ _
           ltac:(discriminate) eq_refl eq_refl eq_refl eq_refl).
Defined.

(** The broken file comes first, is logged and passed over; the next file
    defines [Blur]. *)
Lemma get_class_first_path_match_witness :
  get_class world
    (mkRegistry {["plugins/bad.py"; "plugins/blur.py"]} {["pkg.missing"]})
    "Blur" []
  = (Ok (LoadedClass "blur.Blur"),
     [load_error_line "plugins/bad.py" (mkExc RuntimeError "bad plugin")]).
Proof.
  apply (get_class_first_path_match world _ "Blur" []
           ["plugins/bad.py"] "plugins/blur.py" []
           [load_error_line "plugins/bad.py" (mkExc RuntimeError "bad plugin")]).
  - intros m Hm. simpl in Hm. apply elem_of_singleton in Hm as ->.
    reflexivity.
  - reflexivity.
  - reflexivity.
  - reflexivity.
Defined.

Lemma get_class_result_origin_witness :
  let reg := mkRegistry {["plugins/blur.py"]} {["pkg.ops"]} in
  (∃ m module,
     m ∈ _registered_modules reg
     ∧ import_module world m = Ok module
     ∧ getattr_or_None module "Blur" = Some (LoadedClass "pkg.ops.Blur"))
  ∨ (∃ p module_spec ld module,
       p ∈ _registered_paths reg
       ∧ is_file world p = true
       ∧ spec_from_file_location world (stem p) p = Some module_spec
       ∧ loader module_spec = Some ld
       ∧ exec_module ld = Ok module
       ∧ getattr_or_None module "Blur" = Some (LoadedClass "pkg.ops.Blur")).
Proof.
  intros reg.
  apply (get_class_result_origin world reg "Blur" [] _ []). reflexivity.
Defined.

Lemma get_class_depends_on_iteration_order_witness :
  ∃ order1 order2 : SetIteration string,
    get_class (with_modules_order two_offers_world order1)
      (mkRegistry ∅ {["pkg.ops"; "pkg.alt"]}) "Blur" []
    = (Ok (LoadedClass "pkg.ops.Blur"), [])
    ∧ get_class (with_modules_order two_offers_world order2)
        (mkRegistry ∅ {["pkg.ops"; "pkg.alt"]}) "Blur" []
      = (Ok (LoadedClass "pkg.alt.Blur"), []).
Proof.
  apply (get_class_depends_on_iteration_order two_offers_world ∅
           "pkg.ops" "pkg.alt").
  - discriminate.
  - reflexivity.
  - reflexivity.
Defined.

Lemma get_context_operation_error_kinds_witness :
  let e := mkExc ValueError (unknown_operation_message "nope") in
  (e = mkExc ValueError (unknown_operation_message "nope")
   ∧ ∃ e0, get_class world empty_registry "nope" [] = (Raise e0, [])
           ∧ isinstance e0 ValueError = true)
  ∨ (isinstance e ValueError = false
     ∧ get_class world empty_registry "nope" [] = (Raise e, [])).
Proof.
  intros e.
  apply (get_context_operation_error_kinds world empty_registry "nope" []).
  reflexivity.
Defined.

Lemma get_context_operation_result_origin_witness :
  let c := DeleteOperation "a" in
  get_class world empty_registry "delete:a" [] = (Ok c, [])
  ∨ ((∃ e0, get_class world empty_registry "delete:a" [] = (Raise e0, [])
            ∧ isinstance e0 ValueError = true)
     ∧ ((∃ old_key new_key,
           Re.re_match rename_pattern "delete:a" = Some [old_key; new_key]
           ∧ c = rename_context_key old_key new_key)
        ∨ (∃ key,
             Re.re_match delete_pattern "delete:a" = Some [key]
             ∧ c = delete_context_key key))).
Proof.
  intros c.
  apply (get_context_operation_result_origin world empty_registry "delete:a" []).
  reflexivity.
Defined.

Lemma descriptor_final_newline_is_dropped_witness :
  let d := "rename:" +:+ "a" +:+ ":" +:+ "b" +:+ line_feed in
  get_context_operation world empty_registry d []
  = (Ok (RenameOperation "a" "b"), []).
Proof.
  intros d.
  apply (proj1 (descriptor_final_newline_is_dropped world empty_registry []
                  (mkExc ValueError (not_found_message d)) [] eq_refl)
           "a" "b"); reflexivity.
Defined.

Lemma verbosity_change_names_previous_level_witness :
  last (calls (loggers (set_verbose_level (__init__ None) "ERROR"
                          (set_verbose_level (__init__ None) "DEBUG"
                             fresh_logging)) root))
  = Some (mkLogCall INFO "Logger verbosity level changed from %s to %s."
            [ArgStr "DEBUG"; ArgStr "ERROR"]).
Proof.
  apply (verbosity_change_names_previous_level (__init__ None)
           "DEBUG" "ERROR" DEBUG ERROR fresh_logging); reflexivity.
Defined.

Lemma fresh_logging_handlers_known : handlers_known fresh_logging.
Proof. intros l h Hh. simpl in Hh. by apply elem_of_nil in Hh. Defined.

Lemma set_console_output_adds_a_handler_each_time_witness :
  let st' := Nat.iter 2 (set_console_output (__init__ None)) fresh_logging in
  handlers (loggers st' root)
  = handlers (loggers fresh_logging root)
    ++ ((fun i => mkHandler (next_handler fresh_logging + i)
                    (StreamHandler Stdout) (Some formatter)) <$> seq 0 2)
  ∧ level (loggers st' root) = level (loggers fresh_logging root)
  ∧ handlers_known st'.
Proof.
  apply (set_console_output_adds_a_handler_each_time (__init__ None) 2
           fresh_logging fresh_logging_handlers_known).
Defined.

Lemma set_file_output_outcomes_witness :
  let open_file := fun path : string =>
    if bool_decide (path = "run.log") then Ok tt
    else Raise (mkExc OSError "No such file or directory") in
  ∃ st',
    set_file_output open_file (__init__ None) "logs/run.log" fresh_logging
    = (Ok tt, st')
    ∧ handlers (loggers st' root) = handlers (loggers fresh_logging root)
    ∧ calls (loggers st' root)
      = calls (loggers fresh_logging root)
        ++ [mkLogCall ERROR "Failed to set file output: %s"
              [ArgExc (mkExc OSError "No such file or directory")]].
Proof.
  intros open_file.
  destruct (set_file_output_outcomes open_file (__init__ None) "logs/run.log"
              fresh_logging fresh_logging_handlers_known) as (_ & Hfail & _).
  apply Hfail; reflexivity.
Defined.

Lemma get_class_order_independent_when_unique_witness :
  let reg := mkRegistry {["plugins/blur.py"]} {["pkg.ops"; "pkg.missing"]} in
  get_class (with_modules_order world (elements_order string)) reg "Blur" []
  = get_class (with_modules_order world (reversed_order string)) reg "Blur" [].
Proof.
  intros reg.
  apply (get_class_order_independent_when_unique world reg "Blur" []).
  - intros m Hm. simpl in Hm.
    apply elem_of_union in Hm as [->%elem_of_singleton | ->%elem_of_singleton];
      eexists; reflexivity.
  - intros m m' c c' Hm Hm'. simpl in Hm, Hm'.
    apply elem_of_union in Hm as [->%elem_of_singleton | ->%elem_of_singleton];
      apply elem_of_union in Hm'
        as [->%elem_of_singleton | ->%elem_of_singleton];
      intros [= <-] [= <-]; reflexivity.
Defined.

(** A missing namespace and a broken file: the file's error line is in
    the output when the name is not found. *)
Lemma get_class_reports_broken_files_witness :
  let reg := mkRegistry {["plugins/bad.py"]} {["pkg.missing"]} in
  ∃ out',
    get_class world reg "Sharpen" []
    = (Raise (mkExc ValueError (not_found_message "Sharpen")), out')
    ∧ [] `prefix_of` out'
    ∧ ∀ p module_spec ld e,
        p ∈ _registered_paths reg →
        is_file world p = true →
        spec_from_file_location world (stem p) p = Some module_spec →
        loader module_spec = Some ld →
        exec_module ld = Raise e →
        load_error_line (stem p) e ∈ out'.
Proof.
  intros reg.
  apply (get_class_reports_broken_files world reg "Sharpen" []).
  - intros m Hm. simpl in Hm. apply elem_of_singleton in Hm as ->.
    reflexivity.
  - intros p o Hp. simpl in Hp. apply elem_of_singleton in Hp as ->.
    exists (o ++ [load_error_line "plugins/bad.py"
                    (mkExc RuntimeError "bad plugin")]).
    reflexivity.
Defined.

End MoreInstances.
